(** * Reddit incident harvester: a shallow embedding of [reddit_extractor.py]

    The development follows the source file top-down: text helpers and the
    keyword vocabulary, the regular expressions of the urgency patterns,
    [score_post], the retrying fetcher [get_json], the page walker
    [list_new_posts], the comment fetcher [list_comments] and the orchestrator
    [harvest]; then the [.env] loader [load_dotenv_from] and the OAuth helper
    [RedditAuth].

    Modelling conventions.
    - Python [str] values are Rocq [string]s and are read as ASCII text:
      [lower], [\s], [\w] and [\b] have their ASCII meaning.
    - Python numbers ([int], [float]) are exact rationals [Q]; [round(s, 2)]
      is rounding to the nearest hundredth, ties to even.
    - Parsed JSON payloads are values of type [json]; a Python [dict] is an
      association list read through [lookup] (first binding wins).
    - A Python exception is the outcome [Raise e]; the network is a script
      of HTTP outcomes, consumed one per request.
    - [os.environ] is an association list; the clock and the reply to the
      token request are arguments of the OAuth helper. *)

From Stdlib Require Import ZArith QArith Qround List String Ascii Bool Lia.
From Stdlib Require Import Permutation Sorted Lqa.
Import ListNotations.

Set Implicit Arguments.

(* ------------------------------------------------------------------ *)
(** ** Text *)

Module Text.

Definition code (c : ascii) : N := N_of_ascii c.

Definition between (lo hi : N) (c : ascii) : bool :=
  (N.leb lo (code c) && N.leb (code c) hi)%bool.

Definition is_upper : ascii -> bool := between 65 90.
Definition is_lower : ascii -> bool := between 97 122.
Definition is_digit : ascii -> bool := between 48 57.

(** [str.lower()] on one ASCII character. *)
Definition lower_ascii (c : ascii) : ascii :=
  if is_upper c then ascii_of_N (code c + 32) else c.

(** [str.lower()]. *)
Fixpoint lower (s : string) : string :=
  match s with
  | EmptyString => EmptyString
  | String c s' => String (lower_ascii c) (lower s')
  end.

(** [\w]: letters, digits and the underscore. *)
Definition is_word (c : ascii) : bool :=
  (is_upper c || is_lower c || is_digit c || N.eqb (code c) 95)%bool.

(** [\s] and [str.isspace()]: TAB, LF, VT, FF, CR, FS, GS, RS, US, space. *)
Definition is_space (c : ascii) : bool :=
  (between 9 13 c || between 28 32 c)%bool.

(** The one-character string holding a line feed, Python's ["\n"]. *)
Definition nl : string := String (ascii_of_N 10) EmptyString.

(** [p] is a prefix of [s]. *)
Fixpoint starts_with (p s : string) : bool :=
  match p, s with
  | EmptyString, _ => true
  | String a p', String b s' => (Ascii.eqb a b && starts_with p' s')%bool
  | String _ _, EmptyString => false
  end.

(** Python's [sub in s] on strings. *)
Fixpoint contains (sub s : string) : bool :=
  (starts_with sub s ||
   match s with
   | EmptyString => false
   | String _ s' => contains sub s'
   end)%bool.

(** [sep.join(parts)]. *)
Fixpoint join (sep : string) (parts : list string) : string :=
  match parts with
  | [] => EmptyString
  | [p] => p
  | p :: rest => (p ++ sep ++ join sep rest)%string
  end.

(** [str.lstrip()] and [str.strip()]. *)
Fixpoint lstrip (s : string) : string :=
  match s with
  | EmptyString => EmptyString
  | String c s' => if is_space c then lstrip s' else s
  end.

Fixpoint rstrip (s : string) : string :=
  match s with
  | EmptyString => EmptyString
  | String c s' =>
      match rstrip s' with
      | EmptyString => if is_space c then EmptyString else String c EmptyString
      | t => String c t
      end
  end.

Definition strip (s : string) : string := rstrip (lstrip s).

(** [sorted(...)] on strings: ascending code-point order. *)
Fixpoint insert_sorted (x : string) (l : list string) : list string :=
  match l with
  | [] => [x]
  | y :: l' => if String.leb x y then x :: l else y :: insert_sorted x l'
  end.

Fixpoint sorted (l : list string) : list string :=
  match l with
  | [] => []
  | x :: l' => insert_sorted x (sorted l')
  end.

(** The elements of a Python [set] built from a list: each value once. *)
Definition to_set (l : list string) : list string := nodup string_dec l.

End Text.

(* ------------------------------------------------------------------ *)
(** ** Vocabulary *)

Local Open Scope string_scope.
Local Open Scope list_scope.

Definition PLACE_ANCHORS : list string :=
  ["Alexandria"; "Del Ray"; "Old Town"; "Potomac Yard"; "Eisenhower";
   "King St"; "Duke St"; "Van Dorn"; "Seminary"; "Beauregard"; "Landmark";
   "Cameron"; "Slaters"; "Huntington"; "Fairfax County"; "Arlandria";
   "Rosemont"; "North Ridge"; "West End"].

Definition KEYWORDS : list string :=
  ["fire"; "smoke"; "explosion"; "gas leak"; "evacuation"; "hazmat";
   "shelter in place";
   "shooting"; "shots fired"; "stabbing"; "assault";
   "accident"; "crash"; "pileup"; "hit and run";
   "flood"; "flash flood"; "water main"; "sinkhole";
   "power outage"; "downed lines"; "transformer";
   "road closed"; "bridge closed"; "police activity"; "sirens";
   "helicopter"; "medevac"] ++ PLACE_ANCHORS.

(** [contains_keywords]: the sorted set of the keywords whose lower-case
    form occurs in the lower-cased text. *)
Definition contains_keywords (text : string) (kws : list string) : list string :=
  let low := Text.lower text in
  Text.sorted
    (Text.to_set (filter (fun k => Text.contains (Text.lower k) low) kws)).

(* ------------------------------------------------------------------ *)
(** ** Regular expressions

    The fragment of Python's [re] syntax that the source uses: literals,
    [\s+], [\b], concatenation and alternation.  [search] answers whether
    [re.search] finds a match, which is all the source looks at. *)

Module Re.

Inductive regex : Type :=
| Eps                      (* the empty pattern *)
| Chr (c : ascii)          (* a literal character *)
| Spaces                   (* \s+ *)
| WordB                    (* \b *)
| Seq (r1 r2 : regex)
| Alt (r1 r2 : regex).

(** A position in the subject: the character before it, and what follows. *)
Definition cont := option ascii -> string -> bool.

Definition word_before (prev : option ascii) : bool :=
  match prev with Some c => Text.is_word c | None => false end.

Definition word_after (s : string) : bool :=
  match s with String c _ => Text.is_word c | EmptyString => false end.

(** [\b] holds where exactly one side is a word character. *)
Definition at_boundary (prev : option ascii) (s : string) : bool :=
  xorb (word_before prev) (word_after s).

(** Literal comparison; with [re.I] both sides are case-folded. *)
Definition chr_eq (ci : bool) (c d : ascii) : bool :=
  if ci then Ascii.eqb (Text.lower_ascii c) (Text.lower_ascii d)
  else Ascii.eqb c d.

(** One or more white-space characters, then [k]. *)
Fixpoint spaces1 (k : cont) (s : string) : bool :=
  match s with
  | EmptyString => false
  | String d s' =>
      if Text.is_space d then (k (Some d) s' || spaces1 k s')%bool else false
  end.

(** Backtracking matcher in continuation-passing style: [rmatch ci r k prev s]
    holds when [r] matches a prefix of [s] (preceded by [prev]) and [k]
    accepts the rest. *)
Fixpoint rmatch (ci : bool) (r : regex) (k : cont) (prev : option ascii)
         (s : string) : bool :=
  match r with
  | Eps => k prev s
  | Chr c =>
      match s with
      | String d s' => if chr_eq ci c d then k (Some d) s' else false
      | EmptyString => false
      end
  | Spaces => spaces1 k s
  | WordB => if at_boundary prev s then k prev s else false
  | Seq r1 r2 => rmatch ci r1 (rmatch ci r2 k) prev s
  | Alt r1 r2 => (rmatch ci r1 k prev s || rmatch ci r2 k prev s)%bool
  end.

Fixpoint search_from (ci : bool) (r : regex) (prev : option ascii)
         (s : string) : bool :=
  (rmatch ci r (fun _ _ => true) prev s ||
   match s with
   | EmptyString => false
   | String c s' => search_from ci r (Some c) s'
   end)%bool.

(** [re.search(r, s)] (with [re.I] when [ci]) finds a match. *)
Definition search (ci : bool) (r : regex) (s : string) : bool :=
  search_from ci r None s.

(** Pattern builders. *)
Fixpoint lit (w : string) : regex :=
  match w with
  | EmptyString => Eps
  | String c EmptyString => Chr c
  | String c w' => Seq (Chr c) (lit w')
  end.

(** Words separated by [\s+]. *)
Fixpoint phrase (ws : list string) : regex :=
  match ws with
  | [] => Eps
  | [w] => lit w
  | w :: rest => Seq (lit w) (Seq Spaces (phrase rest))
  end.

Fixpoint alts (rs : list regex) : regex :=
  match rs with
  | [] => Eps
  | [r] => r
  | r :: rest => Alt r (alts rest)
  end.

(** [\b(...)\b]. *)
Definition whole (r : regex) : regex := Seq WordB (Seq r WordB).

End Re.

Definition HIGH_PRIORITY_PATTERNS : list Re.regex :=
  [ Re.whole (Re.alts [Re.lit "shooting"; Re.phrase ["shots"; "fired"];
                       Re.lit "stabbing"; Re.lit "explosion"; Re.lit "hazmat";
                       Re.phrase ["shelter"; "in"; "place"]]);
    Re.whole (Re.alts [Re.phrase ["major"; "accident"];
                       Re.phrase ["multi-vehicle"; "crash"]; Re.lit "pileup"]);
    Re.whole (Re.alts [Re.phrase ["active"; "police"; "activity"];
                       Re.phrase ["police"; "blocked"];
                       Re.phrase ["crime"; "scene"]]);
    Re.whole (Re.alts [Re.phrase ["large"; "fire"];
                       Re.phrase ["structure"; "fire"];
                       Re.phrase ["apartment"; "fire"]]) ].

(** [high_priority]: some urgency pattern is found in the lower-cased text. *)
Definition high_priority (text : string) : bool :=
  let low := Text.lower text in
  existsb (fun p => Re.search false p low) HIGH_PRIORITY_PATTERNS.

(** [r"\balexandria\b"], searched with [re.I] by [score_post]. *)
Definition ALEXANDRIA_PATTERN : Re.regex := Re.whole (Re.lit "alexandria").

(* ------------------------------------------------------------------ *)
(** ** Numbers and scoring *)

(** Nearest integer, ties to the even neighbour. *)
Definition round_half_even (q : Q) : Z :=
  let f := Qfloor q in
  match ((q - inject_Z f) ?= (1 # 2))%Q with
  | Lt => f
  | Gt => (f + 1)%Z
  | Eq => if Z.even f then f else (f + 1)%Z
  end.

(** [round(q, 2)]. *)
Definition round2 (q : Q) : Q := Qred (round_half_even (q * 100)%Q # 100).

(** [score_post].  [score or 0] and [num_comments or 0] are the numbers
    themselves: the only falsy number is zero. *)
Definition score_post (title body : string) (score num_comments : Q) : Q :=
  let text := (title ++ Text.nl ++ body)%string in
  let s := (inject_Z (Z.min 10 (Z.of_nat (List.length (contains_keywords text KEYWORDS))))
            * 1.5)%Q in
  let s := (s + (score * 0.2 + num_comments * 0.1))%Q in
  let s := if high_priority text then (s + 10)%Q else s in
  let s := if Re.search true ALEXANDRIA_PATTERN text then (s + 3)%Q else s in
  round2 s.

(* ------------------------------------------------------------------ *)
(** ** Values, exceptions and the network *)

(** A parsed JSON payload ([r.json()]). *)
#[warnings="-register-all"]
Inductive json : Type :=
| JNull
| JBool (b : bool)
| JNum (q : Q)
| JStr (s : string)
| JArr (items : list json)
| JObj (fields : list (string * json)).

(** A Python [dict] with string keys. *)
Definition dict : Type := list (string * json).

Fixpoint lookup (k : string) (d : dict) : option json :=
  match d with
  | [] => None
  | (k', v) :: d' => if String.eqb k k' then Some v else lookup k d'
  end.

(** [d.get(k, default)]; [d.get(k)] is [get d k JNull]. *)
Definition get (d : dict) (k : string) (default : json) : json :=
  match lookup k d with Some v => v | None => default end.

(** Truth value of a Python object. *)
Definition truthy (v : json) : bool :=
  match v with
  | JNull => false
  | JBool b => b
  | JNum q => negb (Qeq_bool q 0)
  | JStr s => negb (String.eqb s "")
  | JArr l => match l with [] => false | _ => true end
  | JObj d => match d with [] => false | _ => true end
  end.

(** [v or d]. *)
Definition py_or (v d : json) : json := if truthy v then v else d.

Inductive exn : Type :=
| AttributeError | TypeError | ValueError | OverflowError.

(** What a call does: return, raise, or still be waiting for the network
    when the scripted responses are used up. *)
Inductive outcome (A : Type) : Type :=
| Ret (a : A)
| Raise (e : exn)
| Blocked.
Arguments Raise {A} e.
Arguments Blocked {A}.

Definition obind {A B} (c : outcome A) (k : A -> outcome B) : outcome B :=
  match c with
  | Ret a => k a
  | Raise e => Raise e
  | Blocked => Blocked
  end.

Notation "x <~ c ;; k" := (obind c (fun x => k))
  (at level 61, c at next level, right associativity).

(** One HTTP exchange as [get_json] sees it: status 429, any other failure
    (an exception of [requests.get], of [raise_for_status] or of [r.json()]),
    or a success with its parsed body. *)
Inductive http : Type :=
| Http429
| HttpFail
| HttpOk (body : json).

(** Computations that talk to the network: the script of the exchanges still
    to come is threaded through. *)
Definition M (A : Type) : Type := list http -> outcome (A * list http).

Definition ret {A} (a : A) : M A := fun net => Ret (a, net).

Definition bind {A B} (c : M A) (k : A -> M B) : M B :=
  fun net =>
    match c net with
    | Ret (a, net') => k a net'
    | Raise e => Raise e
    | Blocked => Blocked
    end.

Definition lift {A} (c : outcome A) : M A :=
  fun net =>
    match c with
    | Ret a => Ret (a, net)
    | Raise e => Raise e
    | Blocked => Blocked
    end.

Notation "x <- c ;; k" := (bind c (fun x => k))
  (at level 61, c at next level, right associativity).

Definition Qltb (a b : Q) : bool := negb (Qle_bool b a).

Definition len {A} (l : list A) : Z := Z.of_nat (List.length l).

(** [v.get(...)] on something that is not a [dict] raises [AttributeError]. *)
Definition as_dict (v : json) : outcome dict :=
  match v with
  | JObj d => Ret d
  | _ => Raise AttributeError
  end.

(** [for x in v]: the items of a list, the keys of a dict, the characters of
    a string; other values are not iterable. *)
Definition iter_items (v : json) : outcome (list json) :=
  match v with
  | JArr l => Ret l
  | JObj d => Ret (map (fun kv => JStr (fst kv)) d)
  | JStr s => Ret (map (fun c => JStr (String c "")) (list_ascii_of_string s))
  | JNull | JBool _ | JNum _ => Raise TypeError
  end.

(** The operand of [x * 0.2]: numbers (and booleans, which are integers)
    multiply; strings, lists, dicts and [None] raise [TypeError]. *)
Definition as_number (v : json) : outcome Q :=
  match v with
  | JNum q => Ret q
  | JBool b => Ret (if b then 1 else 0)
  | _ => Raise TypeError
  end.

(* ------------------------------------------------------------------ *)
(** ** get_json *)

(** [get_json], from the current value of [tries].  A 429 adds one to
    [tries] and asks again.  Any failure adds one to the same [tries] and
    gives up with [{}] once it exceeds 3.  After a success a non-zero
    [sleep_ms] sleeps for [jitter(sleep_ms)] seconds inside the [try]: for a
    negative [sleep_ms] that is [time.sleep] of a negative length, a
    [ValueError] handled like any other failure. *)
Fixpoint get_json_from (sleep_ms tries : Z) (net : list http)
  : outcome (json * list http) :=
  match net with
  | [] => Blocked
  | r :: net' =>
      let failed :=
        let tries := (tries + 1)%Z in
        if (3 <? tries)%Z then Ret (JObj [], net')
        else get_json_from sleep_ms tries net' in
      match r with
      | Http429 => get_json_from sleep_ms (tries + 1)%Z net'
      | HttpFail => failed
      | HttpOk body => if (sleep_ms <? 0)%Z then failed else Ret (body, net')
      end
  end.

Definition get_json (sleep_ms : Z) : M json := get_json_from sleep_ms 0.

(* ------------------------------------------------------------------ *)
(** ** Result rows and their order *)

(** The dict that [harvest] appends for a matched post, field by field. *)
Record MatchedRow : Type := {
  row_id : json;
  row_created_utc : json;
  row_created_iso : string;
  row_subreddit : json;
  row_author : json;
  row_title : json;
  row_selftext : json;
  row_url : json;
  row_permalink : string;
  row_score : json;
  row_num_comments : json;
  row_comments_scanned : Z;
  row_matched_keywords : string;
  row_high_priority : bool;
  row_eas_score : Q
}.

(** The sort key [(r["eas_score"], r.get("created_utc") or 0)]. *)
Definition sort_key (r : MatchedRow) : Q * json :=
  (row_eas_score r, py_or (row_created_utc r) (JNum 0)).

(** A value read as a number: numbers, and booleans as 0 and 1. *)
Definition number_of (v : json) : option Q :=
  match v with
  | JNum q => Some q
  | JBool b => Some (if b then 1 else 0)
  | _ => None
  end.

(** [a == b] and [a < b] on the second component of the key.  The values
    that reach the sort are numbers and strings ([float] in [list_new_posts]
    has rejected lists and dicts); a number and a string are unequal and
    cannot be ordered. *)
Definition value_eq (a b : json) : bool :=
  match number_of a, number_of b with
  | Some x, Some y => Qeq_bool x y
  | _, _ =>
      match a, b with
      | JStr s, JStr t => String.eqb s t
      | _, _ => false
      end
  end.

Definition value_lt (a b : json) : outcome bool :=
  match number_of a, number_of b with
  | Some x, Some y => Ret (Qltb x y)
  | _, _ =>
      match a, b with
      | JStr s, JStr t => Ret (String.ltb s t)
      | _, _ => Raise TypeError
      end
  end.

(** Tuple comparison [ka < kb]: the first components decide unless they are
    equal; then the second ones do unless they are equal too. *)
Definition key_lt (ka kb : Q * json) : outcome bool :=
  if negb (Qeq_bool (fst ka) (fst kb)) then Ret (Qltb (fst ka) (fst kb))
  else if value_eq (snd ka) (snd kb) then Ret false
  else value_lt (snd ka) (snd kb).

(** [rows.sort(key=..., reverse=True)]: a stable sort into descending key
    order, written as an insertion sort that only asks [<], as Python's
    sort does.  [x] comes from before every row of [l] in the unsorted list
    and is placed in front of the first row that is not strictly greater. *)
Fixpoint insert_row (x : MatchedRow) (l : list MatchedRow)
  : outcome (list MatchedRow) :=
  match l with
  | [] => Ret [x]
  | y :: l' =>
      b <~ key_lt (sort_key x) (sort_key y) ;;
      if b then (t <~ insert_row x l' ;; Ret (y :: t)) else Ret (x :: l)
  end.

Fixpoint sort_rows (l : list MatchedRow) : outcome (list MatchedRow) :=
  match l with
  | [] => Ret []
  | x :: l' => s <~ sort_rows l' ;; insert_row x s
  end.

(** The range of [datetime]: years 1 to 9999, as seconds since the epoch. *)
Definition DATETIME_MIN : Q := inject_Z (-62135596800).
Definition DATETIME_END : Q := inject_Z 253402300800.

(** [(datetime.now(timezone.utc) - timedelta(hours=hours)).timestamp()]:
    the subtraction raises [OverflowError] when the date leaves the range. *)
Definition cutoff (now : Q) (hours : Z) : outcome Q :=
  let since := (now - 3600 * inject_Z hours)%Q in
  if (Qle_bool DATETIME_MIN since && Qltb since DATETIME_END)%bool
  then Ret since else Raise OverflowError.

(** The operand of [str + ...] and the items of [str.join]. *)
Definition as_str (v : json) : outcome string :=
  match v with
  | JStr s => Ret s
  | _ => Raise TypeError
  end.

Fixpoint all_str (l : list json) : outcome (list string) :=
  match l with
  | [] => Ret []
  | v :: l' => s <~ as_str v ;; t <~ all_str l' ;; Ret (s :: t)
  end.

(* ------------------------------------------------------------------ *)
(** ** Built-ins of the Python runtime

    Three library functions are taken as given: [float] on a string (which
    parses it or raises [ValueError]), the text that an f-string puts for a
    value that is not a string, and [to_iso], which renders a timestamp or
    raises when the date is out of range. *)

Record Builtins : Type := {
  float_of_str : string -> option Q;
  str_of : json -> string;
  to_iso : Q -> option string
}.

Section Pipeline.

Variable B : Builtins.

(** [float(v)]. *)
Definition py_float (v : json) : outcome Q :=
  match v with
  | JNum q => Ret q
  | JBool b => Ret (if b then 1 else 0)
  | JStr s =>
      match float_of_str B s with
      | Some q => Ret q
      | None => Raise ValueError
      end
  | JNull | JArr _ | JObj _ => Raise TypeError
  end.

(** The text of [v] inside an f-string. *)
Definition fmt (v : json) : string :=
  match v with
  | JStr s => s
  | _ => str_of B v
  end.

(** [float(p.get("created_utc", 0) or 0)]. *)
Definition created_of (p : dict) : outcome Q :=
  py_float (py_or (get p "created_utc" (JNum 0)) (JNum 0)).

(* ------------------------------------------------------------------ *)
(** ** list_new_posts *)

(** How the [for ch in children] loop ends: by [return out], or by running
    off the end of the page. *)
Inductive scan : Type :=
| Returned (out : list dict)
| PageDone (out : list dict).

Fixpoint scan_children (since_utc : Q) (max_items : Z) (children : list json)
         (out : list dict) : outcome scan :=
  match children with
  | [] => Ret (PageDone out)
  | ch :: rest =>
      c <~ as_dict ch ;;
      p <~ as_dict (get c "data" (JObj [])) ;;
      created <~ created_of p ;;
      if Qltb created since_utc then Ret (Returned out)
      else
        let out := out ++ [p] in
        if (max_items <=? len out)%Z then Ret (Returned out)
        else scan_children since_utc max_items rest out
  end.

(** The [while len(out) < max_items] loop.  Every turn starts with a request,
    so [fuel] turns are enough when [fuel] exceeds the number of scripted
    exchanges (see [list_new_posts]). *)
Fixpoint page_loop (fuel : nat) (since_utc : Q) (max_items sleep_ms : Z)
         (out : list dict) : M (list dict) :=
  if (len out <? max_items)%Z then
    match fuel with
    | O => fun _ => Blocked
    | S fuel' =>
        data <- get_json sleep_ms ;;
        d <- lift (as_dict data) ;;
        listing <- lift (as_dict (get d "data" (JObj []))) ;;
        let children := get listing "children" (JArr []) in
        if negb (truthy children) then ret out
        else
          items <- lift (iter_items children) ;;
          r <- lift (scan_children since_utc max_items items out) ;;
          match r with
          | Returned out' => ret out'
          | PageDone out' =>
              let after := get listing "after" JNull in
              if negb (truthy after) then ret out'
              else page_loop fuel' since_utc max_items sleep_ms out'
          end
    end
  else ret out.

Definition list_new_posts (since_utc : Q) (max_items sleep_ms : Z)
  : M (list dict) :=
  fun net => page_loop (S (List.length net)) since_utc max_items sleep_ms [] net.

(* ------------------------------------------------------------------ *)
(** ** list_comments *)

Definition is_t1 (v : json) : bool :=
  match v with JStr s => String.eqb s "t1" | _ => false end.

(** The loop over the comment records; an exception ends it and keeps what
    was collected ([except Exception: pass]). *)
Fixpoint scan_comments (limit : Z) (items : list json) (out : list json)
  : list json :=
  match items with
  | [] => out
  | it :: rest =>
      match as_dict it with
      | Ret d =>
          if is_t1 (get d "kind" JNull) then
            match as_dict (get d "data" (JObj [])) with
            | Ret dd =>
                let body := py_or (get dd "body" (JStr "")) (JStr "") in
                let out := if truthy body then out ++ [body] else out in
                if (limit <=? len out)%Z then out
                else scan_comments limit rest out
            | _ => out
            end
          else scan_comments limit rest out
      | _ => out
      end
  end.

Definition comments_of (limit : Z) (data : json) : list json :=
  match data with
  | JArr (_ :: second :: _) =>
      match (d <~ as_dict second ;;
             dd <~ as_dict (get d "data" (JObj [])) ;;
             iter_items (get dd "children" (JArr []))) with
      | Ret items => scan_comments limit items []
      | _ => []
      end
  | _ => []
  end.

Definition list_comments (limit sleep_ms : Z) : M (list json) :=
  data <- get_json sleep_ms ;;
  ret (comments_of limit data).

(* ------------------------------------------------------------------ *)
(** ** harvest *)

(** [p.get("title","") or ""] and [p.get("selftext","") or ""]. *)
Definition title_of (p : dict) : json := py_or (get p "title" (JStr "")) (JStr "").
Definition selftext_of (p : dict) : json :=
  py_or (get p "selftext" (JStr "")) (JStr "").

(** [f"{title}\n{body}"]. *)
Definition text_of (title body : json) : string :=
  (fmt title ++ Text.nl ++ fmt body)%string.

(** [(body + "\n" + "\n".join(cm)).strip()]. *)
Definition augment (body : json) (cm : list json) : outcome json :=
  b <~ as_str body ;;
  parts <~ all_str cm ;;
  Ret (JStr (Text.strip (b ++ Text.nl ++ Text.join Text.nl parts)%string)).

(** The truth value of [contains_keywords(text, KEYWORDS)]. *)
Definition matches (text : string) : bool :=
  match contains_keywords text KEYWORDS with [] => false | _ => true end.

(** [score_post] as [harvest] calls it, on whatever the post holds. *)
Definition score_post_of (title body score num_comments : json) : outcome Q :=
  sc <~ as_number (py_or score (JNum 0)) ;;
  nc <~ as_number (py_or num_comments (JNum 0)) ;;
  Ret (score_post (fmt title) (fmt body) sc nc).

(** The row literal of [harvest]; its entries are evaluated in order. *)
Definition build_row (p : dict) (title body : json) : outcome MatchedRow :=
  let text := text_of title body in
  created_iso <~
    (if truthy (get p "created_utc" JNull) then
       ts <~ py_float (get p "created_utc" (JNum 0)) ;;
       match to_iso B ts with
       | Some iso => Ret iso
       | None => Raise OverflowError
       end
     else Ret "") ;;
  permalink <~ as_str (get p "permalink" (JStr "")) ;;
  eas <~ score_post_of title body (py_or (get p "score" JNull) (JNum 0))
                       (py_or (get p "num_comments" JNull) (JNum 0)) ;;
  Ret {| row_id := get p "id" JNull;
         row_created_utc := get p "created_utc" JNull;
         row_created_iso := created_iso;
         row_subreddit := get p "subreddit" JNull;
         row_author := get p "author" JNull;
         row_title := title;
         row_selftext := selftext_of p;
         row_url := get p "url" JNull;
         row_permalink := ("https://reddit.com" ++ permalink)%string;
         row_score := py_or (get p "score" JNull) (JNum 0);
         row_num_comments := py_or (get p "num_comments" JNull) (JNum 0);
         row_comments_scanned := 0;
         row_matched_keywords := Text.join ";" (contains_keywords text KEYWORDS);
         row_high_priority := high_priority text;
         row_eas_score := eas |}.

(** The body that is matched and scored: the post's own, or with the
    comments appended. *)
Definition body_for (include_comments : bool) (comments_limit sleep_ms : Z)
           (p : dict) : M json :=
  if include_comments then
    cm <- list_comments comments_limit sleep_ms ;;
    lift (augment (selftext_of p) cm)
  else ret (selftext_of p).

(** One turn of [for i, p in enumerate(posts, 1)]. *)
Definition process_post (include_comments : bool) (comments_limit sleep_ms : Z)
           (p : dict) (rows : list MatchedRow) : M (list MatchedRow) :=
  let title := title_of p in
  body <- body_for include_comments comments_limit sleep_ms p ;;
  if matches (text_of title body) then
    row <- lift (build_row p title body) ;;
    ret (rows ++ [row])
  else ret rows.

Fixpoint process_posts (include_comments : bool) (comments_limit sleep_ms : Z)
         (posts : list dict) (rows : list MatchedRow) : M (list MatchedRow) :=
  match posts with
  | [] => ret rows
  | p :: rest =>
      rows <- process_post include_comments comments_limit sleep_ms p rows ;;
      process_posts include_comments comments_limit sleep_ms rest rows
  end.

(** [for sub in subs]. *)
Fixpoint harvest_subs (subs : list string) (since_utc : Q) (max_per_sub : Z)
         (include_comments : bool) (comments_limit sleep_ms : Z)
         (rows : list MatchedRow) : M (list MatchedRow) :=
  match subs with
  | [] => ret rows
  | _ :: rest =>
      posts <- list_new_posts since_utc max_per_sub sleep_ms ;;
      rows <- process_posts include_comments comments_limit sleep_ms posts rows ;;
      harvest_subs rest since_utc max_per_sub include_comments comments_limit
                   sleep_ms rows
  end.

(** [harvest] up to the final sort: the rows in encounter order. *)
Definition collect (now : Q) (subs : list string) (hours max_per_sub : Z)
           (include_comments : bool) (comments_limit sleep_ms : Z)
  : M (list MatchedRow) :=
  since_utc <- lift (cutoff now hours) ;;
  harvest_subs subs since_utc max_per_sub include_comments comments_limit
               sleep_ms [].

Definition harvest (now : Q) (subs : list string) (hours max_per_sub : Z)
           (include_comments : bool) (comments_limit sleep_ms : Z)
  : M (list MatchedRow) :=
  rows <- collect now subs hours max_per_sub include_comments comments_limit
                  sleep_ms ;;
  lift (sort_rows rows).

End Pipeline.

(* ================================================================== *)
(** * The .env loader and the OAuth helper *)

(** ** load_dotenv_from *)

Module Dotenv.

(** The line boundaries of [str.splitlines()] in ASCII text: LF, VT, FF, CR,
    FS, GS and RS; CR LF counts as one. *)
Definition is_line_break (c : ascii) : bool :=
  (Text.between 10 13 c || Text.between 28 30 c)%bool.

Definition is_cr (c : ascii) : bool := N.eqb (Text.code c) 13.
Definition is_lf (c : ascii) : bool := N.eqb (Text.code c) 10.

(** [str.splitlines()]: no line for a final boundary. *)
Fixpoint splitlines (s : string) : list string :=
  match s with
  | EmptyString => []
  | String c s' =>
      if is_line_break c then
        EmptyString ::
        match s' with
        | String d s'' =>
            if (is_cr c && is_lf d)%bool then splitlines s'' else splitlines s'
        | EmptyString => splitlines s'
        end
      else
        match splitlines s' with
        | [] => [String c EmptyString]
        | l :: ls => String c l :: ls
        end
  end.

(** [s.strip(ch)] for a single character [ch]. *)
Fixpoint lstrip_char (ch : ascii) (s : string) : string :=
  match s with
  | EmptyString => EmptyString
  | String c s' => if Ascii.eqb c ch then lstrip_char ch s' else s
  end.

Fixpoint rstrip_char (ch : ascii) (s : string) : string :=
  match s with
  | EmptyString => EmptyString
  | String c s' =>
      match rstrip_char ch s' with
      | EmptyString => if Ascii.eqb c ch then EmptyString else String c EmptyString
      | t => String c t
      end
  end.

Definition strip_char (ch : ascii) (s : string) : string :=
  rstrip_char ch (lstrip_char ch s).

Definition EQUALS : ascii := ascii_of_N 61.
Definition HASH : ascii := ascii_of_N 35.
Definition DQUOTE : ascii := ascii_of_N 34.
Definition SQUOTE : ascii := ascii_of_N 39.
Definition NUL : ascii := ascii_of_N 0.

(** [ch in s]. *)
Fixpoint has_char (ch : ascii) (s : string) : bool :=
  match s with
  | EmptyString => false
  | String c s' => (Ascii.eqb c ch || has_char ch s')%bool
  end.

(** [s.split("=", 1)] when [s] holds an equals sign: what stands before the
    first one, and what stands after it. *)
Fixpoint split_first (s : string) : option (string * string) :=
  match s with
  | EmptyString => None
  | String c s' =>
      if Ascii.eqb c EQUALS then Some (EmptyString, s')
      else match split_first s' with
           | Some (k, v) => Some (String c k, v)
           | None => None
           end
  end.

(** What one line of the file assigns, if anything: the line is stripped;
    empty lines, lines starting with [#] and lines without [=] are skipped;
    the key is stripped, and the value is stripped of white space, then of
    double quotes, then of single quotes. *)
Definition parse_line (line : string) : option (string * string) :=
  let line := Text.strip line in
  match line with
  | EmptyString => None
  | String c _ =>
      if Ascii.eqb c HASH then None
      else
        match split_first line with
        | None => None
        | Some (key, val) =>
            Some (Text.strip key,
                  strip_char SQUOTE (strip_char DQUOTE (Text.strip val)))
        end
  end.

(** [os.environ]. *)
Definition environ : Type := list (string * string).

(** [os.getenv(key)]. *)
Fixpoint getenv (key : string) (env : environ) : option string :=
  match env with
  | [] => None
  | (k, v) :: env' => if String.eqb key k then Some v else getenv key env'
  end.

(** [os.environ[key] = val] for a key that is not set: a NUL character in the
    key or in the value is refused with [ValueError]. *)
Definition putenv (key val : string) (env : environ) : outcome environ :=
  if (has_char NUL key || has_char NUL val)%bool then Raise ValueError
  else Ret (env ++ [(key, val)]).

(** The body of the [for line in ...] loop. *)
Definition load_line (line : string) (env : environ) : outcome environ :=
  match parse_line line with
  | None => Ret env
  | Some (key, val) =>
      match key, getenv key env with
      | String _ _, None => putenv key val env
      | _, _ => Ret env
      end
  end.

Fixpoint load_lines (lines : list string) (env : environ) : outcome environ :=
  match lines with
  | [] => Ret env
  | line :: rest => env' <~ load_line line env ;; load_lines rest env'
  end.

(** [load_dotenv_from]: [file] is the text of the file, [None] when the file
    does not exist. *)
Definition load_dotenv_from (file : option string) (env : environ)
  : outcome environ :=
  match file with
  | None => Ret env
  | Some text => load_lines (splitlines text) env
  end.

End Dotenv.

(** ** RedditAuth *)

Module Auth.

(** The object's fields; [token] is [JNull] for [None]. *)
Record RedditAuth : Type := {
  client_id : option string;
  client_secret : option string;
  user_agent : string;
  token : json;
  exp : Q
}.

(** [RedditAuth(client_id, client_secret, user_agent)]. *)
Definition init (id secret : option string) (agent : string) : RedditAuth :=
  {| client_id := id; client_secret := secret; user_agent := agent;
     token := JNull; exp := 0 |}.

Definition nonempty (o : option string) : bool :=
  match o with
  | Some (String _ _) => true
  | _ => false
  end.

(** [has_creds]: [bool(self.client_id and self.client_secret)]. *)
Definition has_creds (a : RedditAuth) : bool :=
  (nonempty (client_id a) && nonempty (client_secret a))%bool.

Definition base_url (a : RedditAuth) : string :=
  if has_creds a then "https://oauth.reddit.com" else "https://www.reddit.com".

(** The token request as [_ensure_token] sees it: an exception (of
    [requests.post], of [raise_for_status] or of [r.json()]), or a parsed
    body. *)
Inductive reply : Type :=
| PostFail
| PostOk (body : json).

(** Truncation toward zero, [int] of a float. *)
Definition truncate (q : Q) : Z := Z.quot (Qnum q) (Zpos (Qden q)).

Section Session.

(** [int] on a string: the number it spells, or [ValueError]. *)
Variable int_of_str : string -> option Z.

(** The text that an f-string puts for a value that is not a string. *)
Variable B : Builtins.

(** [int(v)]. *)
Definition py_int (v : json) : outcome Z :=
  match v with
  | JNum q => Ret (truncate q)
  | JBool b => Ret (if b then 1 else 0)%Z
  | JStr s =>
      match int_of_str s with
      | Some n => Ret n
      | None => Raise ValueError
      end
  | JNull | JArr _ | JObj _ => Raise TypeError
  end.

(** The state after the [except] branch. *)
Definition cleared (a : RedditAuth) : RedditAuth :=
  {| client_id := client_id a; client_secret := client_secret a;
     user_agent := user_agent a; token := JNull; exp := 0 |}.

Definition with_token (a : RedditAuth) (tok : json) (until : Q) : RedditAuth :=
  {| client_id := client_id a; client_secret := client_secret a;
     user_agent := user_agent a; token := tok; exp := until |}.

(** The [try] block of [_ensure_token] on a parsed body: the token is stored
    first, then the expiry; any exception leads to the [except] branch. *)
Definition exchange (now : Q) (body : json) : outcome (json * Q) :=
  j <~ as_dict body ;;
  n <~ py_int (get j "expires_in" (JNum 3600)) ;;
  Ret (get j "access_token" JNull, now + inject_Z n)%Q.

(** [_ensure_token] at time [now]; [r] is what the token request gives if it
    is made.  The result is the returned token, the new state, and whether
    the request was made. *)
Definition ensure_token (now : Q) (r : reply) (a : RedditAuth)
  : json * RedditAuth * bool :=
  if (truthy (token a) && Qltb now (exp a - 30))%bool then (token a, a, false)
  else
    match r with
    | PostFail => (JNull, cleared a, true)
    | PostOk body =>
        match exchange now body with
        | Ret (tok, until) => (tok, with_token a tok until, true)
        | _ => (JNull, cleared a, true)
        end
    end.

(** [headers()]: the header dict in insertion order, the new state, and
    whether a token request was made. *)
Definition headers (now : Q) (r : reply) (a : RedditAuth)
  : list (string * string) * RedditAuth * bool :=
  let h := [("User-Agent", user_agent a)] in
  if has_creds a then
    let '(tok, a', asked) := ensure_token now r a in
    if truthy tok
    then (h ++ [("Authorization", ("Bearer " ++ fmt B tok)%string)], a', asked)
    else (h, a', asked)
  else (h, a, false).

End Session.

(** A header by name. *)
Fixpoint header (name : string) (h : list (string * string)) : option string :=
  match h with
  | [] => None
  | (k, v) :: h' => if String.eqb name k then Some v else header name h'
  end.

End Auth.

(* ================================================================== *)
(** * Vocabulary of the properties

    Notions used to state the properties: the spec's wording of the score,
    what it means for a page item to be fresh or stale, the row built from
    a post, the order the result is sorted by; and a few sample runs. *)

(** The spec's wording of the score, for comparison with [score_post]. *)
Module Spec.

Fixpoint last_char (s : string) : option ascii :=
  match s with
  | EmptyString => None
  | String c s' =>
      match last_char s' with
      | None => Some c
      | found => found
      end
  end.

Definition first_char (s : string) : option ascii :=
  match s with
  | EmptyString => None
  | String c _ => Some c
  end.

Definition is_word_char (o : option ascii) : bool :=
  match o with
  | Some c => Text.is_word c
  | None => false
  end.

(** [w] occurs in [text] as a whole word, whatever the case: some
    occurrence is neither preceded nor followed by a word character. *)
Definition whole_word_ci (w text : string) : Prop :=
  exists pre mid post,
    text = (pre ++ mid ++ post)%string
    /\ Text.lower mid = Text.lower w
    /\ is_word_char (last_char pre) = false
    /\ is_word_char (first_char post) = false.

(** The number of vocabulary terms that occur in [text], whatever the case. *)
Definition matched_count (text : string) : nat :=
  List.length
    (filter (fun k => Text.contains (Text.lower k) (Text.lower text)) KEYWORDS).

(** [min(10, matched) * 1.5 + upvotes * 0.2 + comments * 0.1], plus 10 when
    high-priority, plus 3 when the place name is present, rounded to two
    decimal places. *)
Definition score (matched : nat) (upvotes comments : Q)
           (urgent place : bool) : Q :=
  round2 (inject_Z (Z.min 10 (Z.of_nat matched)) * 1.5
          + upvotes * 0.2 + comments * 0.1
          + (if urgent then 10 else 0) + (if place then 3 else 0))%Q.

End Spec.

(** A listing payload with the given children and cursor, and a child
    record wrapping a post. *)
Definition listing_page (children : list json) (after : json) : json :=
  JObj [("kind", JStr "Listing");
        ("data", JObj [("children", JArr children); ("after", after)])].

Definition child (p : dict) : json := JObj [("kind", JStr "t3"); ("data", JObj p)].

Section Notions.

Variable B : Builtins.

(** [ch.get("data", {})] for a child record. *)
Definition post_of (ch : json) : outcome dict :=
  c <~ as_dict ch ;; as_dict (get c "data" (JObj [])).

(** The child holds post [p], created at or after the cutoff. *)
Definition fresh (since_utc : Q) (ch : json) (p : dict) : Prop :=
  post_of ch = Ret p /\
  exists t, created_of B p = Ret t /\ (since_utc <= t)%Q.

(** The child holds a post created before the cutoff. *)
Definition stale (since_utc : Q) (ch : json) : Prop :=
  exists p t, post_of ch = Ret p /\ created_of B p = Ret t /\ (t < since_utc)%Q.


(** The text a post is matched on when no comments are fetched. *)
Definition plain_text (p : dict) : string :=
  text_of B (title_of p) (selftext_of p).

(** [r] is the row built from post [p] and body [body]. *)
Definition row_from (p : dict) (body : json) (r : MatchedRow) : Prop :=
  build_row B p (title_of p) body = Ret r.

(** With or without comments: every new row is built from a walked post
    and from the body that [body_for] gave for it, which matched. *)
Definition produced (include_comments : bool) (since_utc : Q)
           (max_per_sub comments_limit sleep_ms : Z) (r : MatchedRow) : Prop :=
  exists posts n1 n2 p body n3 n4,
    list_new_posts B since_utc max_per_sub sleep_ms n1 = Ret (posts, n2)
    /\ In p posts
    /\ body_for include_comments comments_limit sleep_ms p n3 = Ret (body, n4)
    /\ matches (text_of B (title_of p) body) = true
    /\ row_from p body r.

(** [float] accepted the post's creation time. *)
Definition timed (p : dict) : Prop := exists t, created_of B p = Ret t.

End Notions.

(** The post's [created_utc] entry is missing, [null] or zero. *)
Definition no_timestamp (p : dict) : Prop :=
  lookup "created_utc" p = None \/
  lookup "created_utc" p = Some JNull \/
  exists z, lookup "created_utc" p = Some (JNum z) /\ (z == 0)%Q.

Definition stamp_of (r : MatchedRow) : json := snd (sort_key r).






(** The values that [<] can order against their own kind. *)
Definition orderable (v : json) : Prop :=
  (exists x, number_of v = Some x) \/ (exists s, v = JStr s).


(** [mid] spells the literal [w], up to case when [ci]. *)
Fixpoint lit_eq (ci : bool) (w mid : string) : bool :=
  match w, mid with
  | EmptyString, EmptyString => true
  | String c w', String d mid' => (Re.chr_eq ci c d && lit_eq ci w' mid')%bool
  | _, _ => false
  end.

(** The character before the position reached after reading [s]. *)
Definition last_or (prev : option ascii) (s : string) : option ascii :=
  match Spec.last_char s with
  | Some c => Some c
  | None => prev
  end.

(** ** Sample runs *)

(** A sample runtime for running the model on examples: [float] accepts no
    string, a value that is not a string prints as nothing and every
    timestamp renders as the empty text.  The theorems are stated for every
    runtime. *)
Definition sample_runtime : Builtins :=
  {| float_of_str := fun _ => None;
     str_of := fun _ => "";
     to_iso := fun _ => Some "" |}.

Definition sample_post (id : string) (created : Q) : dict :=
  [("id", JStr id); ("created_utc", JNum created); ("title", JStr "");
   ("permalink", JStr "/r/AlexandriaVA")].

(** A small run: one source, one page, three posts. *)
Definition sample_item (title : string) (created : Q) : dict :=
  [("id", JStr title); ("created_utc", JNum created); ("title", JStr title);
   ("selftext", JStr ""); ("permalink", JStr "/r/AlexandriaVA/comments/x");
   ("score", JNum 0); ("num_comments", JNum 0)].

Definition sample_feed : list http :=
  [HttpOk (listing_page
             [child (sample_item "smoke near the bridge" 1699999000);
              child (sample_item "shooting in Alexandria" 1699998000);
              child (sample_item "fire on our street" 1699997000);
              child (sample_item "lost cat" 1699996000)]
             JNull)].


(** A run with comments: the post's own text matches nothing, a comment
    does. *)
Definition quiet_post : dict :=
  [("id", JStr "q1"); ("created_utc", JNum 1699999000);
   ("title", JStr "what is going on downtown");
   ("selftext", JStr "anyone know?");
   ("permalink", JStr "/r/AlexandriaVA/comments/q1");
   ("score", JNum 2); ("num_comments", JNum 1)].

Definition comment_feed : list http :=
  [HttpOk (listing_page [child quiet_post] JNull);
   HttpOk (JArr [listing_page [child quiet_post] JNull;
                 JObj [("data",
                        JObj [("children",
                               JArr [JObj [("kind", JStr "t1");
                                           ("data",
                                            JObj [("body",
                                                   JStr "shooting reported")])]])])]])].

Definition comment_rows : list MatchedRow :=
  Eval vm_compute in
    match harvest sample_runtime 1700000000 ["AlexandriaVA"] 48 300 true 20 0
                  comment_feed with
    | Ret (rows, _) => rows
    | _ => []
    end.

(** ** The run with comments *)





(** ** Further notions *)

(** White space at neither end, for a non-empty text. *)
Definition starts_clean (k : string) : bool :=
  match k with
  | String c _ => negb (Text.is_space c)
  | EmptyString => false
  end.

Definition ends_clean (k : string) : bool :=
  match Spec.last_char k with
  | Some c => negb (Text.is_space c)
  | None => false
  end.

(** A keyword: no line feed inside, no white space at either end. *)
Definition tidy (k : string) : bool :=
  (negb (Dotenv.has_char (ascii_of_N 10) k) && starts_clean k && ends_clean k)%bool.


(** An outcome of an exchange that is not a success. *)
Definition unsuccessful (r : http) : Prop := r = Http429 \/ r = HttpFail.

(** [c] is the non-empty body of the comment record [it], a record of kind
    ["t1"]. *)
Definition comment_of (it c : json) : Prop :=
  exists d dd,
    as_dict it = Ret d
    /\ is_t1 (get d "kind" JNull) = true
    /\ as_dict (get d "data" (JObj [])) = Ret dd
    /\ c = get dd "body" (JStr "")
    /\ truthy c = true.

(** [it] is one of the children of the second element of the payload. *)
Definition listed (data it : json) : Prop :=
  exists first second more d dd items,
    data = JArr (first :: second :: more)
    /\ as_dict second = Ret d
    /\ as_dict (get d "data" (JObj [])) = Ret dd
    /\ iter_items (get dd "children" (JArr [])) = Ret items
    /\ In it items.

(** A comment record of kind [kind] with body [body], and a comments payload
    with the given records. *)
Definition comment_record (kind body : string) : json :=
  JObj [("kind", JStr kind); ("data", JObj [("body", JStr body)])].

Definition comments_page (records : list json) : json :=
  JArr [listing_page [] JNull;
        JObj [("kind", JStr "Listing");
              ("data", JObj [("children", JArr records)])]].

Definition sample_comments : json :=
  comments_page [comment_record "t1" "stay safe";
                 comment_record "more" "";
                 comment_record "t1" "";
                 comment_record "t1" "shots fired nearby"].

(** The character [ch] stands at neither end of [s]. *)
Definition bare (ch : ascii) (s : string) : bool :=
  match s, Spec.last_char s with
  | String c _, Some d => (negb (Ascii.eqb c ch) && negb (Ascii.eqb d ch))%bool
  | _, _ => true
  end.

(** A key as it is written in a [.env] file: not empty, no white space at
    either end, no equals sign, not starting with a hash. *)
Definition key_like (k : string) : bool :=
  (starts_clean k && ends_clean k && negb (Dotenv.has_char Dotenv.EQUALS k)
   && negb (Text.starts_with "#" k))%bool.

(** [v] between two quote characters [q]. *)
Definition quoted (q : ascii) (v : string) : string :=
  String q (v ++ String q EmptyString).

(** The stored token is usable at time [now]: the test that opens
    [_ensure_token]. *)
Definition cached (now : Q) (a : Auth.RedditAuth) : bool :=
  (truthy (Auth.token a) && Qltb now (Auth.exp a - 30))%bool.

(** An object with credentials, as [main] builds it. *)
Definition sample_auth : Auth.RedditAuth :=
  Auth.init (Some "client") (Some "secret") "eas-extractor/1.0".

(** A token response. *)
Definition sample_grant : json :=
  JObj [("access_token", JStr "tok-1"); ("token_type", JStr "bearer");
        ("expires_in", JNum 86400)].

(** Texts, and characters before a position, that differ in letter case
    only; continuations of the matcher that do not tell them apart. *)
Definition same_letters (s t : string) : Prop := Text.lower s = Text.lower t.

Definition same_letter (p q : option ascii) : Prop :=
  option_map Text.lower_ascii p = option_map Text.lower_ascii q.

Definition case_blind (k k' : Re.cont) : Prop :=
  forall p p' u u', same_letter p p' -> same_letters u u' -> k p u = k' p' u'.

(* ================================================================== *)
(** * Properties *)

Example ex_keywords :
  contains_keywords "Structure fire on Duke St, evacuation underway" KEYWORDS
  = ["Duke St"; "evacuation"; "fire"].
Proof. vm_compute. reflexivity. Qed.

Example ex_high_priority :
  high_priority "Structure fire on Duke St, evacuation underway" = true.
Proof. vm_compute. reflexivity. Qed.

Example ex_score :
  score_post "Structure fire on Duke St, evacuation underway" "" 0 0 = (29 # 2)%Q.
Proof. vm_compute. reflexivity. Qed.

(** ** Reasoning about outcomes *)

Lemma obind_ret {A C} (c : outcome A) (k : A -> outcome C) (b : C) :
  obind c k = Ret b -> exists a, c = Ret a /\ k a = Ret b.
Proof. destruct c; simpl; intros H; try discriminate. eauto. Qed.

Lemma bind_ret {A C} (c : M A) (k : A -> M C) net (b : C) net' :
  bind c k net = Ret (b, net') ->
  exists a net1, c net = Ret (a, net1) /\ k a net1 = Ret (b, net').
Proof.
  unfold bind. destruct (c net) as [[a net1]| |]; intros H; try discriminate.
  eauto.
Qed.

Lemma lift_ret {A} (c : outcome A) net (a : A) net' :
  lift c net = Ret (a, net') -> c = Ret a /\ net' = net.
Proof.
  unfold lift. destruct c; intros H; inversion H; subst; auto.
Qed.

Lemma ret_ret {A} (x : A) net (a : A) net' :
  ret x net = Ret (a, net') -> a = x /\ net' = net.
Proof. unfold ret. intros H; inversion H; auto. Qed.

Lemma bind_ext {A C} (c : M A) (k1 k2 : A -> M C) net :
  (forall a net1, c net = Ret (a, net1) -> k1 a net1 = k2 a net1) ->
  bind c k1 net = bind c k2 net.
Proof.
  intros H. unfold bind. destruct (c net) as [[a net1]| |]; auto.
Qed.

(** Takes apart a hypothesis saying that a sequence of steps returned. *)
Ltac clean_ret H :=
  match type of H with
  | lift _ _ = Ret _ =>
      let H1 := fresh "Hnet" in
      apply lift_ret in H; destruct H as (H & H1); subst
  | ret _ _ = Ret _ =>
      let H1 := fresh "Hnet" in
      apply ret_ret in H; destruct H as (H & H1); subst
  | _ => idtac
  end.

Ltac step_ret H :=
  match type of H with
  | bind _ _ _ = Ret _ =>
      let a := fresh "a" in let n := fresh "net" in
      let H1 := fresh "Hc" in
      apply bind_ret in H; destruct H as (a & n & H1 & H); clean_ret H1
  | obind _ _ = Ret _ =>
      let a := fresh "a" in let H1 := fresh "Hc" in
      apply obind_ret in H; destruct H as (a & H1 & H)
  | _ => clean_ret H
  end.

Lemma Qltb_lt (a b : Q) : Qltb a b = true <-> (a < b)%Q.
Proof.
  unfold Qltb. rewrite negb_true_iff. split; intros H.
  - apply Qnot_le_lt. intros Hle. apply Qle_bool_iff in Hle. congruence.
  - destruct (Qle_bool b a) eqn:E; auto.
    apply Qle_bool_iff in E. exfalso. exact (Qlt_not_le _ _ H E).
Qed.

Lemma Qltb_ge (a b : Q) : Qltb a b = false <-> (b <= a)%Q.
Proof.
  unfold Qltb. rewrite negb_false_iff. apply Qle_bool_iff.
Qed.

Lemma len_app {A} (l1 l2 : list A) : len (l1 ++ l2) = (len l1 + len l2)%Z.
Proof. unfold len. rewrite length_app. lia. Qed.

Lemma len_nonneg {A} (l : list A) : (0 <= len l)%Z.
Proof. unfold len. lia. Qed.

(* ------------------------------------------------------------------ *)
(** ** The fetcher *)

Lemma get_json_on_429 sleep_ms tries net :
  get_json_from sleep_ms tries (Http429 :: net)
  = get_json_from sleep_ms (tries + 1) net.
Proof. reflexivity. Qed.

Lemma get_json_on_failure sleep_ms tries net :
  get_json_from sleep_ms tries (HttpFail :: net)
  = if (3 <? tries + 1)%Z then Ret (JObj [], net)
    else get_json_from sleep_ms (tries + 1) net.
Proof. reflexivity. Qed.

Lemma get_json_on_success sleep_ms tries body net :
  (0 <= sleep_ms)%Z ->
  get_json_from sleep_ms tries (HttpOk body :: net) = Ret (body, net).
Proof.
  intros H. simpl. destruct (Z.ltb_spec sleep_ms 0); [lia | reflexivity].
Qed.

Lemma get_json_never_raises sleep_ms net :
  forall tries e, get_json_from sleep_ms tries net <> Raise e.
Proof.
  induction net as [|r net IH]; intros tries e; simpl; [discriminate|].
  destruct r; auto.
  - destruct (3 <? tries + 1)%Z; [discriminate | auto].
  - destruct (sleep_ms <? 0)%Z; [|discriminate].
    destruct (3 <? tries + 1)%Z; [discriminate | auto].
Qed.

Lemma get_json_through_429s sleep_ms net n :
  forall tries,
    get_json_from sleep_ms tries (repeat Http429 n ++ net)
    = get_json_from sleep_ms (tries + Z.of_nat n) net.
Proof.
  induction n as [|n IH]; intros tries.
  - simpl. f_equal. lia.
  - cbn [repeat app]. rewrite get_json_on_429, IH. f_equal. lia.
Qed.

(** The script is only ever consumed from the front. *)
Lemma get_json_suffix sleep_ms net :
  forall tries j net',
    get_json_from sleep_ms tries net = Ret (j, net') ->
    exists used, used <> [] /\ net = used ++ net'.
Proof.
  induction net as [|r net IH]; intros tries j net' H; simpl in H;
    [discriminate|].
  assert (Hfail :
    (if (3 <? tries + 1)%Z then Ret (JObj [], net)
     else get_json_from sleep_ms (tries + 1) net) = Ret (j, net') ->
    exists used, used <> [] /\ r :: net = used ++ net').
  { destruct (3 <? tries + 1)%Z; intros H'.
    - inversion H'; subst. exists [r]. split; [discriminate | reflexivity].
    - apply IH in H'. destruct H' as (u & _ & ->).
      exists (r :: u). split; [discriminate | reflexivity]. }
  destruct r as [| |body].
  - apply IH in H. destruct H as (u & _ & ->).
    exists (Http429 :: u). split; [discriminate | reflexivity].
  - auto.
  - destruct (sleep_ms <? 0)%Z; auto.
    inversion H; subst. exists [HttpOk j]. split; [discriminate | reflexivity].
Qed.

(** C5 (as amended).  One counter [tries] serves both paths: a 429 and any
    other failure each add one to it.  A 429 never makes the call give up,
    however many came before.  A failure makes the call return the empty
    result [{}] exactly when the shared counter then exceeds 3, so after [n]
    429 responses with [n >= 3] the first other failure already abandons,
    and without any 429 the fourth failure does.  No error is propagated. *)
Theorem get_json_single_counter :
  forall (sleep_ms tries : Z) (net : list http) (n : nat),
    (3 <= n)%nat ->
    get_json_from sleep_ms tries (Http429 :: net)
      = get_json_from sleep_ms (tries + 1) net
    /\ get_json_from sleep_ms tries (HttpFail :: net)
      = (if (3 <? tries + 1)%Z then Ret (JObj [], net)
         else get_json_from sleep_ms (tries + 1) net)
    /\ get_json sleep_ms (repeat Http429 n ++ net)
      = get_json_from sleep_ms (Z.of_nat n) net
    /\ get_json sleep_ms (repeat Http429 n ++ HttpFail :: net)
      = Ret (JObj [], net)
    /\ get_json sleep_ms (repeat HttpFail 4 ++ net) = Ret (JObj [], net)
    /\ (forall e, get_json_from sleep_ms tries net <> Raise e).
Proof.
  intros sleep_ms tries net n Hn. unfold get_json.
  repeat split.
  - apply get_json_through_429s.
  - rewrite get_json_through_429s, get_json_on_failure.
    destruct (Z.ltb_spec 3 (0 + Z.of_nat n + 1)); [reflexivity | lia].
  - intros e. apply get_json_never_raises.
Qed.

Lemma get_json_single_counter_witness :
  get_json 0 (repeat Http429 3 ++ HttpFail :: [HttpOk JNull])
  = Ret (JObj [], [HttpOk JNull]).
Proof.
  exact (proj1 (proj2 (proj2 (proj2
           (get_json_single_counter 0 0 [HttpOk JNull] (n := 3) (le_n 3)))))).
Defined.

(** C5 (as stated) fails: after three 429 responses a single other failure,
    the first of the call, already makes it return the empty result, although
    the next exchange would have succeeded. *)
Lemma get_json_429s_count_toward_abandonment :
  let net := [Http429; Http429; Http429; HttpFail; HttpOk (JStr "page")] in
  count_occ (fun a b : bool => Bool.bool_dec a b)
            (map (fun r => match r with HttpFail => true | _ => false end)
                 (firstn 4 net)) true = 1%nat
  /\ get_json 0 net = Ret (JObj [], [HttpOk (JStr "page")]).
Proof. split; reflexivity. Qed.

(* ------------------------------------------------------------------ *)
(** ** The page walker *)

Section Walker.

Variable B : Builtins.

Lemma scan_children_cons since_utc max_items ch rest out :
  scan_children B since_utc max_items (ch :: rest) out
  = (p <~ post_of ch ;;
     created <~ created_of B p ;;
     if Qltb created since_utc then Ret (Returned out)
     else if (max_items <=? len (out ++ [p]))%Z then Ret (Returned (out ++ [p]))
          else scan_children B since_utc max_items rest (out ++ [p])).
Proof.
  simpl. unfold post_of. destruct (as_dict ch); reflexivity.
Qed.

Lemma scan_children_stale since_utc max_items old rest out :
  stale B since_utc old ->
  scan_children B since_utc max_items (old :: rest) out = Ret (Returned out).
Proof.
  intros (p & t & Hp & Ht & Hlt).
  rewrite scan_children_cons, Hp. simpl. rewrite Ht. simpl.
  apply Qltb_lt in Hlt. rewrite Hlt. reflexivity.
Qed.

Lemma scan_children_fresh since_utc max_items ch p rest out :
  fresh B since_utc ch p ->
  scan_children B since_utc max_items (ch :: rest) out
  = if (max_items <=? len (out ++ [p]))%Z then Ret (Returned (out ++ [p]))
    else scan_children B since_utc max_items rest (out ++ [p]).
Proof.
  intros (Hp & t & Ht & Hle).
  rewrite scan_children_cons, Hp. simpl. rewrite Ht. simpl.
  apply Qltb_ge in Hle. rewrite Hle. reflexivity.
Qed.

(** Fresh items below the cap are appended one by one; the first stale item
    returns what has been gathered, whatever follows it on the page. *)
Lemma scan_children_stops since_utc max_items pre posts :
  Forall2 (fresh B since_utc) pre posts ->
  forall old rest out,
    stale B since_utc old ->
    (len out + len posts < max_items)%Z ->
    scan_children B since_utc max_items (pre ++ old :: rest) out
    = Ret (Returned (out ++ posts)).
Proof.
  induction 1 as [|ch p pre posts Hf _ IH]; intros old rest out Hold Hlen.
  - simpl app. rewrite app_nil_r. now apply scan_children_stale.
  - cbn [app]. rewrite (scan_children_fresh _ _ _ Hf).
    unfold len in *. cbn [List.length] in Hlen.
    destruct (Z.leb_spec max_items (Z.of_nat (List.length (out ++ [p])))) as [Hc|Hc].
    + rewrite length_app in Hc. simpl in Hc. lia.
    + rewrite (IH old rest (out ++ [p]) Hold).
      * rewrite <- app_assoc. reflexivity.
      * rewrite length_app. simpl. lia.
Qed.

(** A page of fresh items that stays below the cap is taken whole. *)
Lemma scan_children_takes_all since_utc max_items pre posts :
  Forall2 (fresh B since_utc) pre posts ->
  forall out,
    (len out + len posts < max_items)%Z ->
    scan_children B since_utc max_items pre out = Ret (PageDone (out ++ posts)).
Proof.
  induction 1 as [|ch p pre posts Hf _ IH]; intros out Hlen.
  - simpl. rewrite app_nil_r. reflexivity.
  - rewrite (scan_children_fresh _ _ _ Hf).
    unfold len in *. cbn [List.length] in Hlen.
    destruct (Z.leb_spec max_items (Z.of_nat (List.length (out ++ [p])))) as [Hcap|Hcap].
    + rewrite length_app in Hcap. simpl in Hcap. lia.
    + rewrite (IH (out ++ [p])).
      * rewrite <- app_assoc. reflexivity.
      * rewrite length_app. simpl. lia.
Qed.

(** The cap is reached on a fresh item: the walker returns at once. *)
Lemma scan_children_fills since_utc max_items pre posts :
  Forall2 (fresh B since_utc) pre posts ->
  forall rest out,
    posts <> [] ->
    (len out + len posts = max_items)%Z ->
    scan_children B since_utc max_items (pre ++ rest) out
    = Ret (Returned (out ++ posts)).
Proof.
  induction 1 as [|ch p pre posts Hf Hrest IH]; intros rest out Hne Hlen.
  - congruence.
  - cbn [app]. rewrite (scan_children_fresh _ _ _ Hf).
    unfold len in *. cbn [List.length] in Hlen.
    destruct (Z.leb_spec max_items (Z.of_nat (List.length (out ++ [p])))) as [Hc|Hc].
    + rewrite length_app in Hc. simpl in Hc.
      assert (posts = []) by (destruct posts; [reflexivity | simpl in *; lia]).
      subst. reflexivity.
    + rewrite length_app in Hc. simpl in Hc.
      rewrite (IH rest (out ++ [p])).
      * rewrite <- app_assoc. reflexivity.
      * destruct posts; [simpl in *; lia | discriminate].
      * rewrite length_app. simpl. lia.
Qed.

(** The inner loop never lets the result grow past the cap. *)
Lemma scan_children_bound since_utc max_items children :
  forall out r,
    scan_children B since_utc max_items children out = Ret r ->
    (len out < max_items)%Z ->
    match r with
    | Returned out' => (len out' <= max_items)%Z
    | PageDone out' => (len out' < max_items)%Z
    end.
Proof.
  induction children as [|ch rest IH]; intros out r H Hlen.
  - simpl in H. inversion H; subst. exact Hlen.
  - rewrite scan_children_cons in H.
    step_ret H. step_ret H.
    destruct (Qltb a0 since_utc).
    + inversion H; subst. lia.
    + destruct (Z.leb_spec max_items (len (out ++ [a]))) as [Hcap|Hcap].
      * inversion H; subst. rewrite len_app in *. unfold len in *. simpl in *. lia.
      * eapply IH; eauto.
Qed.

Lemma page_loop_bound since_utc max_items sleep_ms fuel :
  forall out net out' net',
    page_loop B fuel since_utc max_items sleep_ms out net = Ret (out', net') ->
    (len out' <= Z.max (len out) max_items)%Z.
Proof.
  induction fuel as [|fuel IH]; intros out net out' net' H; simpl in H.
  - destruct (Z.ltb_spec (len out) max_items); [discriminate|].
    step_ret H. lia.
  - destruct (Z.ltb_spec (len out) max_items) as [Hlt|Hge].
    2:{ step_ret H. lia. }
    do 3 step_ret H.
    destruct (truthy (get a1 "children" (JArr []))); simpl in H.
    2:{ step_ret H. lia. }
    do 2 step_ret H.
    assert (Hb := Hc3). apply scan_children_bound in Hb; [|exact Hlt].
    destruct a3 as [o|o].
    + step_ret H. lia.
    + destruct (truthy (get a1 "after" JNull)); simpl in H.
      * apply IH in H. lia.
      * step_ret H. lia.
Qed.

(** One turn of the outer loop on a page whose children are [children]. *)
Lemma page_loop_turn since_utc max_items sleep_ms fuel out net data net' d
      listing children :
  (len out < max_items)%Z ->
  get_json sleep_ms net = Ret (data, net') ->
  as_dict data = Ret d ->
  as_dict (get d "data" (JObj [])) = Ret listing ->
  get listing "children" (JArr []) = JArr children ->
  children <> [] ->
  page_loop B (S fuel) since_utc max_items sleep_ms out net
  = match scan_children B since_utc max_items children out with
    | Ret (Returned out') => Ret (out', net')
    | Ret (PageDone out') =>
        if negb (truthy (get listing "after" JNull)) then Ret (out', net')
        else page_loop B fuel since_utc max_items sleep_ms out' net'
    | Raise e => Raise e
    | Blocked => Blocked
    end.
Proof.
  intros Hlt Hget Hd Hl Hch Hne. cbn [page_loop].
  apply Z.ltb_lt in Hlt. rewrite Hlt.
  unfold bind at 1. rewrite Hget.
  unfold bind at 1. unfold lift at 1. rewrite Hd.
  unfold bind at 1. unfold lift at 1. rewrite Hl.
  rewrite Hch. destruct children as [|c0 cs]; [congruence|].
  cbn [truthy negb iter_items].
  unfold bind at 1. unfold lift at 1. cbn [iter_items].
  unfold bind at 1. unfold lift at 1.
  destruct (scan_children B since_utc max_items (c0 :: cs) out) as [[o|o]| |];
    try reflexivity.
  destruct (truthy (get listing "after" JNull)); reflexivity.
Qed.

(** Every post that the walker returns went through [float]. *)
Lemma scan_children_timed since_utc max_items children :
  forall out r,
    scan_children B since_utc max_items children out = Ret r ->
    Forall (timed B) out ->
    match r with
    | Returned out' | PageDone out' => Forall (timed B) out'
    end.
Proof.
  induction children as [|ch rest IH]; intros out r H Hout.
  - simpl in H. inversion H; subst. exact Hout.
  - rewrite scan_children_cons in H.
    step_ret H. step_ret H.
    assert (Hout' : Forall (timed B) (out ++ [a])).
    { apply Forall_app. split; [exact Hout|].
      constructor; [|constructor]. exists a0. exact Hc0. }
    destruct (Qltb a0 since_utc).
    + inversion H; subst. exact Hout.
    + destruct (max_items <=? len (out ++ [a]))%Z.
      * inversion H; subst. exact Hout'.
      * eapply IH; eauto.
Qed.

Lemma page_loop_timed since_utc max_items sleep_ms fuel :
  forall out net out' net',
    page_loop B fuel since_utc max_items sleep_ms out net = Ret (out', net') ->
    Forall (timed B) out ->
    Forall (timed B) out'.
Proof.
  induction fuel as [|fuel IH]; intros out net out' net' H Hout; simpl in H.
  - destruct (len out <? max_items)%Z; [discriminate|].
    step_ret H. exact Hout.
  - destruct (len out <? max_items)%Z.
    2:{ step_ret H. exact Hout. }
    do 3 step_ret H.
    destruct (truthy (get a1 "children" (JArr []))); simpl in H.
    2:{ step_ret H. exact Hout. }
    do 2 step_ret H.
    apply scan_children_timed in Hc3; [|exact Hout].
    destruct a3 as [o|o].
    + step_ret H. exact Hc3.
    + destruct (truthy (get a1 "after" JNull)); simpl in H.
      * eapply IH; eauto.
      * step_ret H. exact Hc3.
Qed.

(** The fuel of [page_loop] is no restriction: every turn uses up at least
    one scripted exchange, so any two amounts of fuel above the length of
    the script give the same result. *)
Lemma page_loop_enough_fuel since_utc max_items sleep_ms :
  forall f1 f2 out net,
    (List.length net < f1)%nat -> (List.length net < f2)%nat ->
    page_loop B f1 since_utc max_items sleep_ms out net
    = page_loop B f2 since_utc max_items sleep_ms out net.
Proof.
  induction f1 as [|f1 IH]; intros f2 out net H1 H2; [lia|].
  destruct f2 as [|f2]; [lia|].
  cbn [page_loop]. destruct (len out <? max_items)%Z; [|reflexivity].
  apply bind_ext. intros data net1 E.
  apply get_json_suffix in E. destruct E as (used & Hused & ->).
  assert (Hlen : (List.length net1 < List.length (used ++ net1))%nat).
  { rewrite length_app. destruct used; [congruence | simpl; lia]. }
  apply bind_ext. intros d n2 E2. clean_ret E2.
  apply bind_ext. intros listing n3 E3. clean_ret E3.
  destruct (negb (truthy (get listing "children" (JArr [])))); [reflexivity|].
  apply bind_ext. intros items n4 E4. clean_ret E4.
  apply bind_ext. intros r n5 E5. clean_ret E5.
  destruct r as [o|o]; [reflexivity|].
  destruct (negb (truthy (get listing "after" JNull))); [reflexivity|].
  apply IH; lia.
Qed.

End Walker.

Lemma created_of_number B p x :
  get p "created_utc" (JNum 0) = JNum x ->
  exists t, created_of B p = Ret t /\ (t == x)%Q.
Proof.
  intros H. unfold created_of, py_or. rewrite H. cbn [truthy].
  destruct (Qeq_bool x 0) eqn:E; cbn [negb py_float].
  - exists 0%Q. split; [reflexivity|].
    apply Qeq_bool_iff in E. symmetry. exact E.
  - exists x. split; reflexivity.
Qed.

Lemma created_of_no_timestamp B p :
  no_timestamp p -> created_of B p = Ret 0%Q.
Proof.
  unfold created_of, get, py_or.
  intros [H | [H | (z & H & Hz)]]; rewrite H; cbn [truthy]; try reflexivity.
  apply Qeq_bool_iff in Hz. rewrite Hz. reflexivity.
Qed.

Lemma post_of_child p : post_of (child p) = Ret p.
Proof. reflexivity. Qed.

Lemma fresh_child B since_utc p x :
  get p "created_utc" (JNum 0) = JNum x ->
  (since_utc <= x)%Q ->
  fresh B since_utc (child p) p.
Proof.
  intros H Hle. split; [reflexivity|].
  destruct (created_of_number B p H) as (t & Ht & Heq).
  exists t. split; [exact Ht|]. rewrite Heq. exact Hle.
Qed.

Lemma stale_child B since_utc p x :
  get p "created_utc" (JNum 0) = JNum x ->
  (x < since_utc)%Q ->
  stale B since_utc (child p).
Proof.
  intros H Hlt.
  destruct (created_of_number B p H) as (t & Ht & Heq).
  exists p, t. repeat split; [exact Ht|]. rewrite Heq. exact Hlt.
Qed.

(** The walker on a page that holds fresh items and then a stale one. *)
Lemma page_loop_stops B since_utc max_items sleep_ms fuel out net data net' d
      listing pre posts old rest :
  get_json sleep_ms net = Ret (data, net') ->
  as_dict data = Ret d ->
  as_dict (get d "data" (JObj [])) = Ret listing ->
  get listing "children" (JArr []) = JArr (pre ++ old :: rest) ->
  Forall2 (fresh B since_utc) pre posts ->
  stale B since_utc old ->
  (len out + len posts < max_items)%Z ->
  page_loop B (S fuel) since_utc max_items sleep_ms out net
  = Ret (out ++ posts, net').
Proof.
  intros Hget Hd Hl Hch Hpre Hold Hlen.
  assert (Hlt : (len out < max_items)%Z)
    by (pose proof (len_nonneg posts); lia).
  assert (Hne : pre ++ old :: rest <> []) by (destruct pre; discriminate).
  rewrite (@page_loop_turn B since_utc max_items sleep_ms fuel out net data
             net' d listing (pre ++ old :: rest) Hlt Hget Hd Hl Hch Hne).
  rewrite (@scan_children_stops B since_utc max_items pre posts Hpre old rest
             out Hold Hlen).
  reflexivity.
Qed.

(** The walker on a page of fresh items with a cursor: it goes on to the
    next page with these items gathered. *)
Lemma page_loop_next_page B since_utc max_items sleep_ms fuel out net data net'
      d listing pre posts :
  get_json sleep_ms net = Ret (data, net') ->
  as_dict data = Ret d ->
  as_dict (get d "data" (JObj [])) = Ret listing ->
  get listing "children" (JArr []) = JArr pre ->
  pre <> [] ->
  truthy (get listing "after" JNull) = true ->
  Forall2 (fresh B since_utc) pre posts ->
  (len out + len posts < max_items)%Z ->
  page_loop B (S fuel) since_utc max_items sleep_ms out net
  = page_loop B fuel since_utc max_items sleep_ms (out ++ posts) net'.
Proof.
  intros Hget Hd Hl Hch Hne Hafter Hpre Hlen.
  assert (Hlt : (len out < max_items)%Z)
    by (pose proof (len_nonneg posts); lia).
  rewrite (@page_loop_turn B since_utc max_items sleep_ms fuel out net data
             net' d listing pre Hlt Hget Hd Hl Hch Hne).
  rewrite (@scan_children_takes_all B since_utc max_items pre posts Hpre out
             Hlen).
  rewrite Hafter. reflexivity.
Qed.

(** Two pages: the second holds a stale item in the middle, and a third
    page would follow. *)
Example walker_two_pages :
  list_new_posts sample_runtime 1000 300 0
    [HttpOk (listing_page [child (sample_post "a" 5000);
                           child (sample_post "b" 4000)] (JStr "t3_b"));
     HttpOk (listing_page [child (sample_post "c" 3000);
                           child (sample_post "d" 900);
                           child (sample_post "e" 2000)] (JStr "t3_e"));
     HttpOk (listing_page [child (sample_post "f" 1500)] JNull)]
  = Ret ([sample_post "a" 5000; sample_post "b" 4000; sample_post "c" 3000],
         [HttpOk (listing_page [child (sample_post "f" 1500)] JNull)]).
Proof. vm_compute. reflexivity. Qed.

(** C3.  When the walker meets an item older than the cutoff it returns
    exactly what it has gathered so far: neither the rest of that page nor
    any later exchange of the script is looked at.  In particular a first
    page with items at cutoff+5h, cutoff+3h and cutoff-1h yields exactly the
    first two items (the cap leaving room for them). *)
Theorem walker_stops_at_first_old_item :
  forall (B : Builtins) (since_utc : Q) (max_items sleep_ms : Z),
    (forall fuel out net data net' d listing pre posts old rest,
        get_json sleep_ms net = Ret (data, net') ->
        as_dict data = Ret d ->
        as_dict (get d "data" (JObj [])) = Ret listing ->
        get listing "children" (JArr []) = JArr (pre ++ old :: rest) ->
        Forall2 (fresh B since_utc) pre posts ->
        stale B since_utc old ->
        (len out + len posts < max_items)%Z ->
        page_loop B (S fuel) since_utc max_items sleep_ms out net
        = Ret (out ++ posts, net'))
    /\
    (forall pa pb pc after net net',
        get pa "created_utc" (JNum 0) = JNum (since_utc + 18000) ->
        get pb "created_utc" (JNum 0) = JNum (since_utc + 10800) ->
        get pc "created_utc" (JNum 0) = JNum (since_utc - 3600) ->
        get_json sleep_ms net
        = Ret (listing_page [child pa; child pb; child pc] after, net') ->
        (2 <= max_items)%Z ->
        list_new_posts B since_utc max_items sleep_ms net = Ret ([pa; pb], net')).
Proof.
  intros B since_utc max_items sleep_ms. split.
  - intros. eapply page_loop_stops; eauto.
  - intros pa pb pc after net net' Ha Hb Hc Hget Hcap.
    assert (Fa : fresh B since_utc (child pa) pa).
    { eapply fresh_child; [exact Ha|].
      rewrite <- (Qplus_0_r since_utc) at 1.
      apply Qplus_le_r. discriminate. }
    assert (Fb : fresh B since_utc (child pb) pb).
    { eapply fresh_child; [exact Hb|].
      rewrite <- (Qplus_0_r since_utc) at 1.
      apply Qplus_le_r. discriminate. }
    assert (Sc : stale B since_utc (child pc)).
    { eapply stale_child; [exact Hc|].
      rewrite <- (Qplus_0_r since_utc) at 2.
      apply Qplus_lt_r. reflexivity. }
    unfold list_new_posts.
    destruct (Z.eq_dec max_items 2) as [->|Hne].
    + rewrite (@page_loop_turn B since_utc 2 sleep_ms (List.length net) []
                 net _ net' _
                 [("children", JArr [child pa; child pb; child pc]);
                  ("after", after)]
                 [child pa; child pb; child pc]
                 eq_refl Hget eq_refl eq_refl eq_refl
                 ltac:(discriminate)).
      change [child pa; child pb; child pc]
        with ([child pa; child pb] ++ [child pc]).
      rewrite (@scan_children_fills B since_utc 2 [child pa; child pb] [pa; pb]
                 (Forall2_cons _ _ Fa (Forall2_cons _ _ Fb (Forall2_nil _)))
                 [child pc] []
                 ltac:(discriminate) eq_refl).
      reflexivity.
    + eapply (@page_loop_stops B since_utc max_items sleep_ms (List.length net)
                [] net _ net' _ _ [child pa; child pb] [pa; pb] (child pc) []);
        eauto; try reflexivity.
      unfold len; simpl; lia.
Qed.

Lemma walker_stops_at_first_old_item_witness :
  list_new_posts sample_runtime 1000 300 0
    [HttpOk (listing_page
               [child (sample_post "a" (1000 + 18000));
                child (sample_post "b" (1000 + 10800));
                child (sample_post "c" (1000 - 3600))]
               (JStr "t3_c"));
     HttpOk (listing_page [] JNull)]
  = Ret ([sample_post "a" (1000 + 18000); sample_post "b" (1000 + 10800)],
         [HttpOk (listing_page [] JNull)]).
Proof.
  exact (proj2 (walker_stops_at_first_old_item sample_runtime 1000 300 0)
           (sample_post "a" (1000 + 18000)) (sample_post "b" (1000 + 10800))
           (sample_post "c" (1000 - 3600)) (JStr "t3_c")
           [HttpOk (listing_page
                      [child (sample_post "a" (1000 + 18000));
                       child (sample_post "b" (1000 + 10800));
                       child (sample_post "c" (1000 - 3600))]
                      (JStr "t3_c"));
            HttpOk (listing_page [] JNull)]
           [HttpOk (listing_page [] JNull)]
           eq_refl eq_refl eq_refl eq_refl ltac:(discriminate)).
Defined.

(** C8.  For every source, cutoff and cap, the walker returns at most the
    per-source cap of items for one source, whatever pages the fetch layer
    returns.  A cap is a count, zero or more; for any integer passed as
    [max_items] the bound is [max(0, max_items)]. *)
Theorem list_new_posts_within_cap :
  forall (B : Builtins) (since_utc : Q) (max_items sleep_ms : Z)
         (net : list http) (out : list dict) (net' : list http),
    list_new_posts B since_utc max_items sleep_ms net = Ret (out, net') ->
    ((0 <= max_items)%Z -> (len out <= max_items)%Z)
    /\ (len out <= Z.max 0 max_items)%Z.
Proof.
  intros B since_utc max_items sleep_ms net out net' H.
  unfold list_new_posts in H. apply page_loop_bound in H.
  split; [intros Hcap; rewrite Z.max_r in H by exact Hcap; exact H | exact H].
Qed.

Lemma list_new_posts_within_cap_witness :
  ((0 <= 2)%Z -> (len [sample_post "a" 2000; sample_post "b" 1900] <= 2)%Z)
  /\ (len [sample_post "a" 2000; sample_post "b" 1900] <= Z.max 0 2)%Z.
Proof.
  exact (@list_new_posts_within_cap sample_runtime 1000 2 0
           [HttpOk (listing_page
                      [child (sample_post "a" 2000);
                       child (sample_post "b" 1900);
                       child (sample_post "c" 1800)] (JStr "t3_c"))]
           [sample_post "a" 2000; sample_post "b" 1900] [] eq_refl).
Defined.

(** C10.  A post whose [created_utc] entry is missing, [null] or zero has
    creation time 0; under a strictly positive cutoff, meeting it makes the
    walker return what it gathered before: that item and everything after
    it are left out. *)
Theorem missing_timestamp_ends_pagination :
  forall (B : Builtins) (since_utc : Q) (max_items sleep_ms : Z) (fuel : nat)
         (out : list dict) (net : list http) (data : json) (net' : list http)
         (d listing : dict) (pre : list json) (posts : list dict)
         (ch : json) (p : dict) (rest : list json),
    no_timestamp p ->
    post_of ch = Ret p ->
    (0 < since_utc)%Q ->
    get_json sleep_ms net = Ret (data, net') ->
    as_dict data = Ret d ->
    as_dict (get d "data" (JObj [])) = Ret listing ->
    get listing "children" (JArr []) = JArr (pre ++ ch :: rest) ->
    Forall2 (fresh B since_utc) pre posts ->
    (len out + len posts < max_items)%Z ->
    created_of B p = Ret 0%Q /\
    page_loop B (S fuel) since_utc max_items sleep_ms out net
    = Ret (out ++ posts, net').
Proof.
  intros B since_utc max_items sleep_ms fuel out net data net' d listing pre
         posts ch p rest Hno Hp Hpos Hget Hd Hl Hch Hpre Hlen.
  pose proof (created_of_no_timestamp B Hno) as Hc.
  split; [exact Hc|].
  eapply page_loop_stops; eauto.
  exists p, 0%Q. auto.
Qed.

Lemma missing_timestamp_ends_pagination_witness :
  created_of sample_runtime [("id", JStr "b"); ("created_utc", JNull)] = Ret 0%Q
  /\ page_loop sample_runtime 1 1000 300 0 []
       [HttpOk (listing_page
                  [child (sample_post "a" 2000);
                   child [("id", JStr "b"); ("created_utc", JNull)];
                   child (sample_post "c" 1900)] (JStr "t3_c"))]
     = Ret ([] ++ [sample_post "a" 2000], []).
Proof.
  eapply (@missing_timestamp_ends_pagination sample_runtime 1000 300 0 0 []
           _ _ [] _ _ [child (sample_post "a" 2000)] [sample_post "a" 2000]
           (child [("id", JStr "b"); ("created_utc", JNull)])
           [("id", JStr "b"); ("created_utc", JNull)]
           [child (sample_post "c" 1900)]).
  - right. left. reflexivity.
  - reflexivity.
  - reflexivity.
  - reflexivity.
  - reflexivity.
  - reflexivity.
  - reflexivity.
  - constructor; [|constructor].
    split; [reflexivity|]. exists 2000%Q. split; [reflexivity | discriminate].
  - reflexivity.
Defined.

(* ------------------------------------------------------------------ *)
(** ** The final order *)

Section StringOrder.


Lemma string_lt_trans (s t u : string) :
  String.compare s t = Lt -> String.compare t u = Lt -> String.compare s u = Lt.
Proof.
  revert t u. induction s as [|a s IH]; intros [|b t] [|c u]; simpl;
    try discriminate; auto.
  unfold Ascii.compare.
  destruct (N.compare_spec (N_of_ascii a) (N_of_ascii b)) as [E1|L1|G1];
    try discriminate;
    destruct (N.compare_spec (N_of_ascii b) (N_of_ascii c)) as [E2|L2|G2];
    try discriminate; intros H1 H2.
  - rewrite E1, E2, N.compare_refl. eapply IH; eauto.
  - rewrite E1. apply N.compare_lt_iff in L2. rewrite L2. reflexivity.
  - rewrite <- E2. apply N.compare_lt_iff in L1. rewrite L1. reflexivity.
  - assert (L : (N_of_ascii a < N_of_ascii c)%N) by (eapply N.lt_trans; eauto).
    apply N.compare_lt_iff in L. rewrite L. reflexivity.
Qed.



(** "Not below" is transitive on strings. *)
Lemma string_nlt_trans (s t u : string) :
  String.ltb s t = false -> String.ltb t u = false -> String.ltb s u = false.
Proof.
  unfold String.ltb. intros H1 H2.
  destruct (String.compare s u) eqn:Hsu; try reflexivity. exfalso.
  rewrite (String.compare_antisym s t) in H1.
  destruct (String.compare t s) eqn:Hts; simpl in H1; try discriminate.
  - apply String.compare_eq_iff in Hts. subst. rewrite Hsu in H2. discriminate.
  - rewrite (string_lt_trans _ _ _ Hts Hsu) in H2. discriminate.
Qed.

End StringOrder.

Lemma number_of_str s : number_of (JStr s) = None.
Proof. reflexivity. Qed.











Lemma insert_row_perm x l :
  forall l', insert_row x l = Ret l' -> Permutation (x :: l) l'.
Proof.
  induction l as [|y l IH]; intros l' H; simpl in H.
  - inversion H. apply Permutation_refl.
  - step_ret H. destruct a.
    + step_ret H. inversion H; subst.
      eapply perm_trans; [apply perm_swap|]. apply perm_skip. now apply IH.
    + inversion H. apply Permutation_refl.
Qed.



Lemma sort_rows_perm l : forall l', sort_rows l = Ret l' -> Permutation l l'.
Proof.
  induction l as [|x l IH]; intros l' H; simpl in H.
  - inversion H. constructor.
  - step_ret H. eapply perm_trans; [apply perm_skip, IH, Hc|].
    now apply insert_row_perm.
Qed.




Lemma harvest_sorts B now subs hours max_per_sub include_comments
      comments_limit sleep_ms net rows net' :
  harvest B now subs hours max_per_sub include_comments comments_limit
          sleep_ms net = Ret (rows, net') ->
  exists encountered,
    collect B now subs hours max_per_sub include_comments comments_limit
            sleep_ms net = Ret (encountered, net')
    /\ sort_rows encountered = Ret rows.
Proof.
  unfold harvest. intros H. step_ret H. step_ret H. eauto.
Qed.



(* ------------------------------------------------------------------ *)
(** ** The orchestrator *)

Lemma sorted_In x l : In x (Text.sorted l) <-> In x l.
Proof.
  assert (Hins : forall y l', In x (Text.insert_sorted y l') <-> x = y \/ In x l').
  { intros y l'. induction l' as [|z l' IH]; simpl.
    - intuition.
    - destruct (String.leb y z); simpl; [intuition | rewrite IH; intuition]. }
  induction l as [|y l IH]; simpl; [reflexivity|].
  rewrite Hins, IH. intuition.
Qed.






Section Orchestrator.

Variable B : Builtins.

(** The structure of the run does not depend on the vocabulary: keep the
    text functions folded while reasoning about it. *)
#[local] Opaque matches contains_keywords high_priority score_post.


Lemma process_post_inv include_comments comments_limit sleep_ms p rows net
      rows' net' :
  process_post B include_comments comments_limit sleep_ms p rows net
  = Ret (rows', net') ->
  exists body,
    body_for include_comments comments_limit sleep_ms p net = Ret (body, net')
    /\ (if matches (text_of B (title_of p) body)
        then exists r, row_from B p body r /\ rows' = rows ++ [r]
        else rows' = rows).
Proof.
  unfold process_post. intros H. step_ret H. exists a.
  destruct (matches (text_of B (title_of p) a)).
  - do 2 step_ret H. split; [exact Hc|]. eauto.
  - step_ret H. auto.
Qed.



Lemma process_posts_rows include_comments comments_limit sleep_ms posts :
  forall rows net rows' net',
    process_posts B include_comments comments_limit sleep_ms posts rows net
    = Ret (rows', net') ->
    exists new,
      rows' = rows ++ new /\
      Forall (fun r => exists p body n3 n4,
                  In p posts
                  /\ body_for include_comments comments_limit sleep_ms p n3
                     = Ret (body, n4)
                  /\ matches (text_of B (title_of p) body) = true
                  /\ row_from B p body r) new.
Proof.
  induction posts as [|p posts IH]; intros rows net rows' net' H;
    cbn [process_posts] in H.
  - step_ret H. exists []. rewrite app_nil_r. split; [reflexivity | constructor].
  - step_ret H. apply process_post_inv in Hc.
    destruct Hc as (body & Hb & Hrow).
    apply IH in H. destruct H as (new & -> & Hall).
    assert (Hall' : Forall (fun r => exists p0 body0 n3 n4,
                  In p0 (p :: posts)
                  /\ body_for include_comments comments_limit sleep_ms p0 n3
                     = Ret (body0, n4)
                  /\ matches (text_of B (title_of p0) body0) = true
                  /\ row_from B p0 body0 r) new).
    { eapply Forall_impl; [|exact Hall]. cbv beta.
      intros r (p0 & b0 & n3 & n4 & Hin & Hrest).
      exists p0, b0, n3, n4. split; [now right | exact Hrest]. }
    destruct (matches (text_of B (title_of p) body)) eqn:Em.
    + destruct Hrow as (r & Hr & ->). exists (r :: new).
      rewrite <- app_assoc. split; [reflexivity|]. constructor; [|exact Hall'].
      exists p, body, net, net0.
      split; [now left|]. split; [exact Hb|]. split; [exact Em | exact Hr].
    + subst a. exists new. split; [reflexivity | exact Hall'].
Qed.

Lemma harvest_subs_rows include_comments since_utc max_per_sub comments_limit
      sleep_ms subs :
  forall rows net rows' net',
    harvest_subs B subs since_utc max_per_sub include_comments comments_limit
                 sleep_ms rows net = Ret (rows', net') ->
    exists new,
      rows' = rows ++ new /\
      Forall (produced B include_comments since_utc max_per_sub comments_limit
                       sleep_ms) new.
Proof.
  induction subs as [|s subs IH]; intros rows net rows' net' H;
    cbn [harvest_subs] in H.
  - step_ret H. exists []. rewrite app_nil_r. split; [reflexivity | constructor].
  - do 2 step_ret H.
    apply process_posts_rows in Hc0. destruct Hc0 as (new1 & -> & F1).
    apply IH in H. destruct H as (new2 & -> & F2).
    exists (new1 ++ new2). rewrite app_assoc. split; [reflexivity|].
    apply Forall_app. split; [|exact F2].
    eapply Forall_impl; [|exact F1]. cbv beta.
    intros r (p & body & n3 & n4 & Hin & Hb & Hm & Hr).
    exists a, net, net0, p, body, n3, n4.
    split; [exact Hc|]. split; [exact Hin|]. split; [exact Hb|].
    split; [exact Hm | exact Hr].
Qed.

#[local] Transparent matches contains_keywords high_priority score_post.

End Orchestrator.

#[local] Opaque matches contains_keywords high_priority score_post.






(** [harvest] with comments: where every row comes from. *)
Lemma harvest_rows B now subs hours max_per_sub include_comments
      comments_limit sleep_ms net rows net' :
  harvest B now subs hours max_per_sub include_comments comments_limit
          sleep_ms net = Ret (rows, net') ->
  exists since_utc,
    cutoff now hours = Ret since_utc /\
    Forall (produced B include_comments since_utc max_per_sub comments_limit
                     sleep_ms) rows.
Proof.
  intros H. apply harvest_sorts in H. destruct H as (enc & Hcol & Hsort).
  unfold collect in Hcol. step_ret Hcol.
  apply harvest_subs_rows in Hcol. destruct Hcol as (new & -> & HF).
  exists a. split; [exact Hc|].
  apply sort_rows_perm in Hsort. simpl in Hsort.
  rewrite Forall_forall in *. intros r Hr. apply HF.
  exact (Permutation_in _ (Permutation_sym Hsort) Hr).
Qed.

Lemma timed_orderable B p :
  timed B p -> orderable (py_or (get p "created_utc" JNull) (JNum 0)).
Proof.
  unfold timed, created_of, get, py_or, orderable.
  intros (t & Ht).
  destruct (lookup "created_utc" p) as [v|]; [|left; eexists; reflexivity].
  destruct v as [|b|q|s|l|d]; cbn [truthy] in *.
  - left. eexists. reflexivity.
  - destruct b; left; eexists; reflexivity.
  - destruct (negb (Qeq_bool q 0)); left; eexists; reflexivity.
  - destruct (negb (String.eqb s "")); [right; eexists; reflexivity|].
    left. eexists. reflexivity.
  - destruct l; [left; eexists; reflexivity | discriminate].
  - destruct d; [left; eexists; reflexivity | discriminate].
Qed.

(** The second sort key of every returned row is a number or a string:
    [float] in [list_new_posts] has rejected everything else. *)
Lemma harvest_stamps_orderable B now subs hours max_per_sub include_comments
      comments_limit sleep_ms net rows net' :
  harvest B now subs hours max_per_sub include_comments comments_limit
          sleep_ms net = Ret (rows, net') ->
  Forall (fun r => orderable (stamp_of r)) rows.
Proof.
  intros H. apply harvest_rows in H. destruct H as (since_utc & _ & HF).
  eapply Forall_impl; [|exact HF]. cbv beta.
  intros r (posts & n1 & n2 & p & body & n3 & n4 & Hl & Hp & _ & _ & Hrow).
  unfold list_new_posts in Hl.
  apply page_loop_timed in Hl; [|constructor].
  rewrite Forall_forall in Hl. specialize (Hl p Hp).
  apply timed_orderable in Hl.
  unfold row_from, build_row in Hrow. do 3 step_ret Hrow.
  inversion Hrow; subst. exact Hl.
Qed.

Lemma augment_inv body cm v :
  augment body cm = Ret v ->
  exists b parts,
    body = JStr b /\ all_str cm = Ret parts /\
    v = JStr (Text.strip (b ++ Text.nl ++ Text.join Text.nl parts)%string).
Proof.
  unfold augment. intros H. do 2 step_ret H. inversion H; subst.
  destruct body; try discriminate. inversion Hc; subst. eauto.
Qed.





Example comment_rows_value :
  map (fun r => (row_selftext r, row_matched_keywords r, row_high_priority r))
      comment_rows
  = [(JStr "anyone know?", "shooting", true)].
Proof. vm_compute. reflexivity. Qed.


#[local] Transparent matches contains_keywords high_priority score_post.

(* ------------------------------------------------------------------ *)
(** ** Payloads of an unexpected shape *)

(** C4.  A listing response that is a JSON array makes [harvest] raise:
    [list_new_posts] calls [data.get] on it.  ([list_comments], which reads
    the same kind of payload, tests [isinstance(data, list)] and wraps its
    loop in [try]/[except].) *)
Theorem harvest_raises_on_array_listing :
  forall B : Builtins,
    harvest B 1700000000 ["AlexandriaVA"] 48 300 false 20 600 [HttpOk (JArr [])]
    = Raise AttributeError.
Proof. intros B. reflexivity. Qed.

(** Other payloads with the same effect: a listing whose ["data"] is
    [null], and a matching post whose ["permalink"] is [null]. *)
Lemma harvest_raises_on_null_data :
  forall B : Builtins,
    harvest B 1700000000 ["AlexandriaVA"] 48 300 false 20 600
            [HttpOk (JObj [("kind", JStr "Listing"); ("data", JNull)])]
    = Raise AttributeError.
Proof. intros B. reflexivity. Qed.

Lemma harvest_raises_on_null_permalink :
  forall B : Builtins,
    exists e,
      harvest B 1700000000 ["AlexandriaVA"] 48 300 false 20 600
              [HttpOk (listing_page
                         [child [("id", JStr "p1");
                                 ("created_utc", JNum 1699999000);
                                 ("title", JStr "fire on King St");
                                 ("selftext", JStr "");
                                 ("permalink", JNull)]]
                         JNull)]
      = Raise e.
Proof.
  intros [parse show iso].
  destruct (iso 1699999000%Q) as [text|] eqn:E.
  - exists TypeError. vm_compute. rewrite E. reflexivity.
  - exists OverflowError. vm_compute. rewrite E. reflexivity.
Qed.

(* ------------------------------------------------------------------ *)
(** ** The score *)

(** *** Rounding *)

Lemma round_half_even_comp (q q' : Q) :
  (q == q')%Q -> round_half_even q = round_half_even q'.
Proof.
  intros H. unfold round_half_even.
  rewrite <- (Qfloor_comp _ _ H).
  assert (E : ((q - inject_Z (Qfloor q)) ?= (1 # 2))%Q
              = ((q' - inject_Z (Qfloor q)) ?= (1 # 2))%Q).
  { apply Qcompare_comp; [|reflexivity].
    unfold Qminus. apply Qplus_comp; [exact H | reflexivity]. }
  rewrite E. reflexivity.
Qed.

Lemma round2_comp (q q' : Q) : (q == q')%Q -> round2 q = round2 q'.
Proof.
  intros H. unfold round2.
  rewrite (@round_half_even_comp (q * 100) (q' * 100)); [reflexivity|].
  apply Qmult_comp; [exact H | reflexivity].
Qed.

Lemma Qfloor_plus_Z (q : Q) (n : Z) :
  Qfloor (q + inject_Z n) = (Qfloor q + n)%Z.
Proof.
  destruct q as [a b]. unfold Qplus, inject_Z, Qfloor. cbn [Qnum Qden].
  rewrite Pos.mul_1_r, Z.mul_1_r. apply Z.div_add. discriminate.
Qed.

Lemma round_half_even_plus_even (q : Q) (n : Z) :
  Z.even n = true ->
  round_half_even (q + inject_Z n) = (round_half_even q + n)%Z.
Proof.
  intros Hn. unfold round_half_even. rewrite Qfloor_plus_Z.
  assert (E : ((q + inject_Z n - inject_Z (Qfloor q + n)) ?= (1 # 2))%Q
              = ((q - inject_Z (Qfloor q)) ?= (1 # 2))%Q).
  { apply Qcompare_comp; [|reflexivity]. rewrite inject_Z_plus. ring. }
  rewrite E.
  destruct ((q - inject_Z (Qfloor q)) ?= (1 # 2))%Q; try lia.
  rewrite Z.even_add, Hn.
  destruct (Z.even (Qfloor q)); simpl; lia.
Qed.

(** Adding a whole number of units commutes with rounding to hundredths. *)
Lemma round2_plus_Z (q : Q) (n : Z) :
  (round2 (q + inject_Z n) == round2 q + inject_Z n)%Q.
Proof.
  unfold round2. rewrite !Qred_correct.
  rewrite (@round_half_even_comp ((q + inject_Z n) * 100)
                                 (q * 100 + inject_Z (n * 100))).
  2:{ rewrite inject_Z_mult. ring. }
  rewrite round_half_even_plus_even.
  2:{ rewrite Z.even_mul. rewrite orb_true_r. reflexivity. }
  unfold Qeq, Qplus, inject_Z. cbn [Qnum Qden]. lia.
Qed.

(** *** The place-name pattern *)

Section WholeWord.

Import Re.

Lemma last_or_cons prev d s : last_or prev (String d s) = last_or (Some d) s.
Proof. unfold last_or. simpl. destruct (Spec.last_char s); reflexivity. Qed.

Lemma rmatch_lit_step ci c w k prev s :
  rmatch ci (lit (String c w)) k prev s
  = match s with
    | String d s' => if chr_eq ci c d then rmatch ci (lit w) k (Some d) s' else false
    | EmptyString => false
    end.
Proof. destruct w; reflexivity. Qed.

Lemma rmatch_lit ci w :
  forall k prev s,
    rmatch ci (lit w) k prev s = true <->
    exists mid rest,
      s = (mid ++ rest)%string /\ lit_eq ci w mid = true
      /\ k (last_or prev mid) rest = true.
Proof.
  induction w as [|c w IH]; intros k prev s.
  - simpl. split.
    + intros H. exists EmptyString, s. auto.
    + intros (mid & rest & -> & Hm & Hk). destruct mid; [exact Hk | discriminate].
  - rewrite rmatch_lit_step. destruct s as [|d s].
    + split; [discriminate|].
      intros (mid & rest & Hs & Hm & _). destruct mid; discriminate.
    + split.
      * destruct (chr_eq ci c d) eqn:E; [|discriminate]. intros H.
        apply IH in H. destruct H as (mid & rest & -> & Hm & Hk).
        exists (String d mid), rest. rewrite last_or_cons. simpl.
        rewrite E, Hm. auto.
      * intros (mid & rest & Hs & Hm & Hk).
        destruct mid as [|d' mid]; [discriminate|].
        simpl in Hs. inversion Hs; subst. simpl in Hm.
        apply andb_true_iff in Hm. destruct Hm as [E Hm]. rewrite E.
        apply IH. exists mid, rest. rewrite last_or_cons in Hk. auto.
Qed.

Lemma search_from_spec ci r :
  forall s prev,
    search_from ci r prev s = true <->
    exists pre rest,
      s = (pre ++ rest)%string
      /\ rmatch ci r (fun _ _ => true) (last_or prev pre) rest = true.
Proof.
  induction s as [|c s IH]; intros prev; simpl.
  - rewrite orb_false_r. split.
    + intros H. exists EmptyString, EmptyString. auto.
    + intros (pre & rest & Hs & H).
      destruct pre; [|discriminate]. simpl in Hs. subst. exact H.
  - rewrite orb_true_iff, IH. split.
    + intros [H | (pre & rest & -> & H)].
      * exists EmptyString, (String c s). auto.
      * exists (String c pre), rest. rewrite last_or_cons. auto.
    + intros (pre & rest & Hs & H). destruct pre as [|c' pre].
      * simpl in Hs. subst. left. exact H.
      * simpl in Hs. inversion Hs; subst. right.
        exists pre, rest. rewrite last_or_cons in H. auto.
Qed.

Lemma search_whole_lit ci w text :
  search ci (whole (lit w)) text = true <->
  exists pre mid post,
    text = (pre ++ mid ++ post)%string
    /\ lit_eq ci w mid = true
    /\ at_boundary (Spec.last_char pre) (mid ++ post)%string = true
    /\ at_boundary (last_or (Spec.last_char pre) mid) post = true.
Proof.
  unfold search. rewrite search_from_spec. split.
  - intros (pre & rest & -> & H). unfold whole in H. cbn [rmatch] in H.
    assert (E : last_or None pre = Spec.last_char pre)
      by (unfold last_or; destruct (Spec.last_char pre); reflexivity).
    rewrite E in H.
    destruct (at_boundary (Spec.last_char pre) rest) eqn:B1; [|discriminate].
    apply rmatch_lit in H. destruct H as (mid & post & -> & Hm & H).
    destruct (at_boundary (last_or (Spec.last_char pre) mid) post) eqn:B2;
      [|discriminate].
    exists pre, mid, post. auto.
  - intros (pre & mid & post & -> & Hm & B1 & B2).
    exists pre, (mid ++ post)%string. split; [reflexivity|].
    assert (E : last_or None pre = Spec.last_char pre)
      by (unfold last_or; destruct (Spec.last_char pre); reflexivity).
    unfold whole. cbn [rmatch]. rewrite E, B1.
    apply rmatch_lit. exists mid, post. rewrite B2. auto.
Qed.

Lemma is_word_lower c : Text.is_word (Text.lower_ascii c) = Text.is_word c.
Proof.
  destruct c as [[] [] [] [] [] [] [] []]; reflexivity.
Qed.

Lemma chr_eq_is_word ci c d :
  chr_eq ci c d = true -> Text.is_word d = Text.is_word c.
Proof.
  unfold chr_eq. destruct ci; intros H; apply Ascii.eqb_eq in H.
  - rewrite <- (is_word_lower d), <- (is_word_lower c), H. reflexivity.
  - subst. reflexivity.
Qed.

Lemma lit_eq_first ci w mid :
  lit_eq ci w mid = true ->
  Spec.is_word_char (Spec.first_char mid) = Spec.is_word_char (Spec.first_char w).
Proof.
  destruct w, mid; simpl; try discriminate; [reflexivity|].
  intros H. apply andb_true_iff in H. destruct H as [H _].
  exact (@chr_eq_is_word ci _ _ H).
Qed.

Lemma lit_eq_last ci w :
  forall mid,
    lit_eq ci w mid = true ->
    Spec.is_word_char (Spec.last_char mid) = Spec.is_word_char (Spec.last_char w).
Proof.
  induction w as [|c w IH]; intros [|d mid]; simpl; try discriminate;
    [reflexivity|].
  intros H. apply andb_true_iff in H. destruct H as [Hc Hm].
  specialize (IH mid Hm).
  assert (Hlen : Spec.last_char mid = None <-> Spec.last_char w = None).
  { clear IH Hc. revert mid Hm.
    induction w as [|c' w IHw]; intros [|d' mid]; simpl; try discriminate.
    - tauto.
    - intros _. destruct (Spec.last_char mid), (Spec.last_char w);
        split; discriminate. }
  destruct (Spec.last_char mid) eqn:E1, (Spec.last_char w) eqn:E2.
  - exact IH.
  - destruct Hlen as [_ Hl]. specialize (Hl eq_refl). discriminate.
  - destruct Hlen as [Hl _]. specialize (Hl eq_refl). discriminate.
  - simpl. exact (@chr_eq_is_word ci _ _ Hc).
Qed.

Lemma lit_eq_lower w :
  forall mid, lit_eq true w mid = true <-> Text.lower mid = Text.lower w.
Proof.
  induction w as [|c w IH]; intros [|d mid]; simpl;
    try (split; discriminate); [tauto|].
  rewrite andb_true_iff, IH. unfold chr_eq. rewrite Ascii.eqb_eq. split.
  - intros [-> ->]. reflexivity.
  - intros H. inversion H. auto.
Qed.

(** For a word [w] that begins and ends with a word character, the search
    for [\bw\b] with [re.I] finds the whole-word occurrences of [w]. *)
Lemma search_whole_word w text :
  Spec.is_word_char (Spec.first_char w) = true ->
  Spec.is_word_char (Spec.last_char w) = true ->
  (search true (whole (lit w)) text = true <-> Spec.whole_word_ci w text).
Proof.
  intros Hf Hl. rewrite search_whole_lit. unfold Spec.whole_word_ci.
  assert (Hb : forall pre mid post,
             lit_eq true w mid = true ->
             (at_boundary (Spec.last_char pre) (mid ++ post)%string = true
              /\ at_boundary (last_or (Spec.last_char pre) mid) post = true
              <->
              Spec.is_word_char (Spec.last_char pre) = false
              /\ Spec.is_word_char (Spec.first_char post) = false)).
  { intros pre mid post Hm.
    pose proof (lit_eq_first _ _ _ Hm) as H1. rewrite Hf in H1.
    pose proof (lit_eq_last _ _ _ Hm) as H2. rewrite Hl in H2.
    destruct mid as [|d mid]; [discriminate|].
    unfold at_boundary, last_or.
    destruct (Spec.last_char (String d mid)) as [e|] eqn:E; [|discriminate].
    simpl in H1, H2. cbn [append word_after word_before].
    rewrite H1, H2.
    change (word_before (Spec.last_char pre))
      with (Spec.is_word_char (Spec.last_char pre)).
    replace (word_after post) with (Spec.is_word_char (Spec.first_char post))
      by (destruct post; reflexivity).
    destruct (Spec.is_word_char (Spec.last_char pre)),
             (Spec.is_word_char (Spec.first_char post)); simpl; intuition. }
  split; intros (pre & mid & post & Ht & H).
  - destruct H as (Hm & B). exists pre, mid, post. split; [exact Ht|].
    split; [now apply lit_eq_lower|]. now apply (Hb pre mid post Hm).
  - destruct H as (Hm & B). apply lit_eq_lower in Hm.
    exists pre, mid, post. split; [exact Ht|]. split; [exact Hm|].
    now apply (Hb pre mid post Hm).
Qed.

End WholeWord.

Lemma alexandria_search text :
  Re.search true ALEXANDRIA_PATTERN text = true <->
  Spec.whole_word_ci "alexandria" text.
Proof. apply search_whole_word; reflexivity. Qed.

(** *** The keyword count *)

Lemma KEYWORDS_distinct : NoDup KEYWORDS.
Proof.
  assert (E : nodup string_dec KEYWORDS = KEYWORDS) by (vm_compute; reflexivity).
  rewrite <- E. apply NoDup_nodup.
Qed.

Lemma sorted_length l : List.length (Text.sorted l) = List.length l.
Proof.
  assert (Hins : forall x l', List.length (Text.insert_sorted x l')
                              = S (List.length l')).
  { intros x l'. induction l' as [|y l' IH]; simpl; [reflexivity|].
    destruct (String.leb x y); simpl; [reflexivity | now rewrite IH]. }
  induction l as [|x l IH]; simpl; [reflexivity|]. now rewrite Hins, IH.
Qed.

(** The vocabulary has no repeated term, so the size of the matched set is
    the number of terms that occur. *)
Lemma contains_keywords_count text :
  List.length (contains_keywords text KEYWORDS) = Spec.matched_count text.
Proof.
  unfold contains_keywords, Spec.matched_count, Text.to_set.
  rewrite sorted_length, nodup_fixed_point; [reflexivity|].
  apply NoDup_filter, KEYWORDS_distinct.
Qed.

#[local] Opaque contains_keywords high_priority Re.search round2 KEYWORDS.

(** C1.  [score_post] is the spec's formula: [min(10, matched) * 1.5], plus
    0.2 per upvote and 0.1 per comment, plus 10 when the text is
    high-priority, plus 3 when it holds "alexandria" as a whole word in any
    case, the sum rounded to two decimal places; [matched] is the number of
    vocabulary terms found in title, newline, body. *)
Theorem score_post_formula :
  forall (title body : string) (score num_comments : Q),
    exists place : bool,
      (place = true <->
       Spec.whole_word_ci "alexandria" (title ++ Text.nl ++ body)%string)
      /\ List.length (contains_keywords (title ++ Text.nl ++ body)%string KEYWORDS)
         = Spec.matched_count (title ++ Text.nl ++ body)%string
      /\ score_post title body score num_comments
         = Spec.score
             (List.length
                (contains_keywords (title ++ Text.nl ++ body)%string KEYWORDS))
             score num_comments
             (high_priority (title ++ Text.nl ++ body)%string) place.
Proof.
  intros title body score num_comments.
  exists (Re.search true ALEXANDRIA_PATTERN (title ++ Text.nl ++ body)%string).
  split; [apply alexandria_search|].
  split; [apply contains_keywords_count|].
  unfold score_post, Spec.score. cbv zeta.
  apply round2_comp.
  destruct (high_priority (title ++ Text.nl ++ body)%string);
    destruct (Re.search true ALEXANDRIA_PATTERN (title ++ Text.nl ++ body)%string);
    ring.
Qed.

(** C6 (as amended).  Of two inputs with the same number of matched
    keywords, the same upvote score and the same comment count, one that is
    high-priority and holds the place name as a whole word scores exactly 13
    more than one that is neither. *)
Theorem bonuses_add_thirteen :
  forall (t1 b1 t2 b2 : string) (score num_comments : Q),
    List.length (contains_keywords (t1 ++ Text.nl ++ b1)%string KEYWORDS)
    = List.length (contains_keywords (t2 ++ Text.nl ++ b2)%string KEYWORDS) ->
    high_priority (t1 ++ Text.nl ++ b1)%string = true ->
    Spec.whole_word_ci "alexandria" (t1 ++ Text.nl ++ b1)%string ->
    high_priority (t2 ++ Text.nl ++ b2)%string = false ->
    ~ Spec.whole_word_ci "alexandria" (t2 ++ Text.nl ++ b2)%string ->
    (score_post t1 b1 score num_comments
     == score_post t2 b2 score num_comments + 13)%Q.
Proof.
  intros t1 b1 t2 b2 score num_comments Hn H1 W1 H2 W2.
  apply alexandria_search in W1.
  assert (W2' : Re.search true ALEXANDRIA_PATTERN (t2 ++ Text.nl ++ b2)%string
                = false).
  { destruct (Re.search true ALEXANDRIA_PATTERN (t2 ++ Text.nl ++ b2)%string)
      eqn:E; [|reflexivity].
    exfalso. apply W2, alexandria_search, E. }
  unfold score_post. cbv zeta. rewrite Hn, H1, H2, W1, W2'.
  match goal with
  | |- (round2 (?base + 10 + 3) == _)%Q =>
      rewrite (@round2_comp (base + 10 + 3) (base + inject_Z 13))
        by (change (inject_Z 13) with 13%Q; ring)
  end.
  apply round2_plus_Z.
Qed.

#[local] Transparent contains_keywords high_priority Re.search round2 KEYWORDS.

Lemma bonuses_add_thirteen_witness :
  (score_post "shooting in Alexandria" "" 5 2
   == score_post "fire and smoke" "" 5 2 + 13)%Q.
Proof.
  apply bonuses_add_thirteen.
  - vm_compute. reflexivity.
  - vm_compute. reflexivity.
  - apply alexandria_search. vm_compute. reflexivity.
  - vm_compute. reflexivity.
  - intros W. apply alexandria_search in W. vm_compute in W. discriminate.
Defined.

(** C6 (as stated) fails: with both bonuses the score is 13 higher, not 12. *)
Lemma bonuses_do_not_add_twelve :
  List.length (contains_keywords ("shooting in Alexandria" ++ Text.nl ++ "")%string
                                 KEYWORDS)
  = List.length (contains_keywords ("fire and smoke" ++ Text.nl ++ "")%string
                                   KEYWORDS)
  /\ high_priority ("shooting in Alexandria" ++ Text.nl ++ "")%string = true
  /\ Spec.whole_word_ci "alexandria"
                        ("shooting in Alexandria" ++ Text.nl ++ "")%string
  /\ high_priority ("fire and smoke" ++ Text.nl ++ "")%string = false
  /\ ~ Spec.whole_word_ci "alexandria" ("fire and smoke" ++ Text.nl ++ "")%string
  /\ ~ (score_post "shooting in Alexandria" "" 0 0
        == score_post "fire and smoke" "" 0 0 + 12)%Q.
Proof.
  split; [vm_compute; reflexivity|].
  split; [vm_compute; reflexivity|].
  split; [apply alexandria_search; vm_compute; reflexivity|].
  split; [vm_compute; reflexivity|].
  split.
  - intros W. apply alexandria_search in W. vm_compute in W. discriminate.
  - vm_compute. discriminate.
Qed.

(* ================================================================== *)
(** * Further properties *)

(** ** Keywords *)

Lemma starts_with_app p s :
  Text.starts_with p s = true <-> exists post, s = (p ++ post)%string.
Proof.
  revert s. induction p as [|a p IH]; intros s; simpl.
  - split; [intros _; exists s; reflexivity | reflexivity].
  - destruct s as [|b s].
    + split; [discriminate | intros (post & H); discriminate].
    + rewrite andb_true_iff, IH, Ascii.eqb_eq. split.
      * intros (-> & post & ->). exists post. reflexivity.
      * intros (post & H). inversion H; subst. split; [reflexivity|].
        exists post. reflexivity.
Qed.

(** [sub in s] holds exactly when [s] is some text, then [sub], then some
    text. *)
Lemma contains_app sub s :
  Text.contains sub s = true <->
  exists pre post, s = (pre ++ sub ++ post)%string.
Proof.
  induction s as [|c s IH].
  - simpl. rewrite orb_false_r, starts_with_app. split.
    + intros (post & H). exists EmptyString, post. exact H.
    + intros (pre & post & H). destruct pre; [|discriminate].
      exists post. exact H.
  - cbn [Text.contains]. rewrite orb_true_iff, starts_with_app, IH. split.
    + intros [(post & H) | (pre & post & H)].
      * exists EmptyString, post. exact H.
      * exists (String c pre), post. simpl. now rewrite H.
    + intros (pre & post & H). destruct pre as [|c' pre].
      * left. exists post. exact H.
      * right. simpl in H. inversion H; subst. exists pre, post. reflexivity.
Qed.

(** X1.  A keyword is returned by [contains_keywords] exactly when it is in
    the given list and its lower-case form occurs, as a run of consecutive
    characters, in the lower-cased text. *)
Theorem contains_keywords_membership :
  forall (text : string) (kws : list string) (k : string),
    In k (contains_keywords text kws) <->
    In k kws /\
    exists pre post,
      Text.lower text = (pre ++ Text.lower k ++ post)%string.
Proof.
  intros text kws k. unfold contains_keywords, Text.to_set.
  rewrite sorted_In, nodup_In, filter_In, contains_app. reflexivity.
Qed.

Lemma string_leb_ltb (s t : string) : String.leb s t = negb (String.ltb t s).
Proof.
  unfold String.leb, String.ltb. rewrite (String.compare_antisym t s).
  destruct (String.compare s t); reflexivity.
Qed.

Lemma string_leb_trans (s t u : string) :
  String.leb s t = true -> String.leb t u = true -> String.leb s u = true.
Proof.
  rewrite !string_leb_ltb, !negb_true_iff. intros H1 H2.
  exact (string_nlt_trans _ _ _ H2 H1).
Qed.

Lemma insert_sorted_perm x l : Permutation (x :: l) (Text.insert_sorted x l).
Proof.
  induction l as [|y l IH]; simpl; [apply Permutation_refl|].
  destruct (String.leb x y); [apply Permutation_refl|].
  eapply perm_trans; [apply perm_swap|]. now apply perm_skip.
Qed.

Lemma sorted_perm l : Permutation l (Text.sorted l).
Proof.
  induction l as [|x l IH]; simpl; [constructor|].
  eapply perm_trans; [apply perm_skip, IH | apply insert_sorted_perm].
Qed.

Lemma insert_sorted_ordered x l :
  StronglySorted (fun a b => String.leb a b = true) l ->
  StronglySorted (fun a b => String.leb a b = true) (Text.insert_sorted x l).
Proof.
  induction 1 as [|y l Hs IH Hall]; simpl.
  - repeat constructor.
  - destruct (String.leb x y) eqn:E.
    + constructor; [constructor; assumption|].
      constructor; [exact E|].
      eapply Forall_impl; [|exact Hall]. cbv beta.
      intros z Hz. eapply string_leb_trans; eauto.
    + constructor; [exact IH|].
      apply Forall_forall. intros z Hz.
      apply (Permutation_in _ (Permutation_sym (insert_sorted_perm x l))) in Hz.
      destruct Hz as [<-|Hz].
      * destruct (String.leb_total x y) as [H|H]; [congruence | exact H].
      * rewrite Forall_forall in Hall. now apply Hall.
Qed.

Lemma sorted_ordered l :
  StronglySorted (fun a b => String.leb a b = true) (Text.sorted l).
Proof.
  induction l as [|x l IH]; simpl; [constructor|].
  now apply insert_sorted_ordered.
Qed.

Lemma ordered_distinct_strict l :
  StronglySorted (fun a b => String.leb a b = true) l ->
  NoDup l ->
  StronglySorted (fun a b => String.ltb a b = true) l.
Proof.
  induction 1 as [|x l Hs IH Hall]; intros Hnd; [constructor|].
  inversion Hnd as [|? ? Hx Hnd']; subst.
  constructor; [now apply IH|].
  apply Forall_forall. intros z Hz. rewrite Forall_forall in Hall.
  specialize (Hall z Hz). unfold String.leb in Hall. unfold String.ltb.
  destruct (String.compare x z) eqn:E; try reflexivity; try discriminate.
  apply String.compare_eq_iff in E. subst. contradiction.
Qed.

(** X2.  The keywords come back in strictly ascending code-point order: in
    particular none is repeated, also when the given list names a keyword
    more than once. *)
Theorem contains_keywords_ascending :
  forall (text : string) (kws : list string),
    StronglySorted (fun a b => String.ltb a b = true)
                   (contains_keywords text kws).
Proof.
  intros text kws. unfold contains_keywords, Text.to_set.
  apply ordered_distinct_strict; [apply sorted_ordered|].
  eapply Permutation_NoDup; [apply sorted_perm | apply NoDup_nodup].
Qed.

(** ** Keywords and comment augmentation *)

Lemma lower_app a b :
  Text.lower (a ++ b)%string = (Text.lower a ++ Text.lower b)%string.
Proof. induction a as [|c a IH]; simpl; [reflexivity | now rewrite IH]. Qed.

Lemma is_space_lower c : Text.is_space (Text.lower_ascii c) = Text.is_space c.
Proof. destruct c as [[] [] [] [] [] [] [] []]; reflexivity. Qed.

Lemma lower_lstrip s : Text.lower (Text.lstrip s) = Text.lstrip (Text.lower s).
Proof.
  induction s as [|c s IH]; simpl; [reflexivity|].
  rewrite is_space_lower. destruct (Text.is_space c); [exact IH | reflexivity].
Qed.

Lemma lower_rstrip s : Text.lower (Text.rstrip s) = Text.rstrip (Text.lower s).
Proof.
  induction s as [|c s IH]; simpl; [reflexivity|].
  rewrite <- IH, is_space_lower.
  destruct (Text.rstrip s); simpl; [|reflexivity].
  destruct (Text.is_space c); reflexivity.
Qed.

Lemma lower_strip s : Text.lower (Text.strip s) = Text.strip (Text.lower s).
Proof. unfold Text.strip. now rewrite lower_rstrip, lower_lstrip. Qed.

Lemma starts_with_more k s t :
  Text.starts_with k s = true -> Text.starts_with k (s ++ t)%string = true.
Proof.
  revert s. induction k as [|a k IH]; intros [|b s]; simpl; try discriminate;
    try reflexivity.
  rewrite !andb_true_iff. intros [E H]. split; [exact E | now apply IH].
Qed.

Lemma contains_more_right k s t :
  Text.contains k s = true -> Text.contains k (s ++ t)%string = true.
Proof.
  induction s as [|c s IH].
  - simpl. rewrite orb_false_r. intros H.
    destruct k; [|discriminate]. destruct t; reflexivity.
  - cbn [Text.contains append]. rewrite !orb_true_iff. intros [H|H].
    + left. exact (starts_with_more _ _ t H).
    + right. now apply IH.
Qed.

Lemma contains_more_left k s t :
  Text.contains k t = true -> Text.contains k (s ++ t)%string = true.
Proof.
  intros H. induction s as [|c s IH]; simpl; [exact H|].
  rewrite IH. apply orb_true_r.
Qed.

Lemma starts_with_before c k a b :
  Dotenv.has_char c k = false ->
  Text.starts_with k (a ++ String c b)%string = true ->
  Text.starts_with k a = true.
Proof.
  revert a. induction k as [|x k IH]; intros a Hc H; [reflexivity|].
  simpl in Hc. apply orb_false_iff in Hc. destruct Hc as [Hx Hk].
  destruct a as [|y a]; simpl in *.
  - apply andb_true_iff in H. destruct H as [E _]. congruence.
  - apply andb_true_iff in H. destruct H as [E H]. rewrite E. simpl.
    now apply IH.
Qed.

(** A text without the character [c] that occurs in [a ++ c ++ b] occurs
    in [a] or in [b]. *)
Lemma contains_split c k a b :
  k <> EmptyString ->
  Dotenv.has_char c k = false ->
  Text.contains k (a ++ String c b)%string = true ->
  Text.contains k a = true \/ Text.contains k b = true.
Proof.
  intros Hne Hc. induction a as [|y a IH]; cbn [append Text.contains].
  - rewrite orb_true_iff. intros [H|H]; [|now right].
    destruct k as [|x k]; [congruence|]. simpl in Hc, H.
    apply orb_false_iff in Hc. destruct Hc as [Hx _].
    apply andb_true_iff in H. destruct H as [E _]. congruence.
  - rewrite !orb_true_iff. intros [H|H].
    + left. left. exact (starts_with_before _ _ (String y a) _ Hc H).
    + destruct (IH H) as [H'|H']; [left; right; exact H' | right; exact H'].
Qed.

Lemma contains_lstrip k s :
  starts_clean k = true ->
  Text.contains k s = true -> Text.contains k (Text.lstrip s) = true.
Proof.
  intros Hk. induction s as [|c s IH]; [auto|].
  cbn [Text.lstrip]. destruct (Text.is_space c) eqn:E; [|auto].
  cbn [Text.contains]. rewrite orb_true_iff. intros [H|H]; [|now apply IH].
  destruct k as [|x k]; [discriminate|]. simpl in Hk, H.
  apply andb_true_iff in H. destruct H as [Hx _].
  apply Ascii.eqb_eq in Hx. subst. rewrite E in Hk. discriminate.
Qed.

Lemma rstrip_cons c s :
  Text.rstrip s <> EmptyString ->
  Text.rstrip (String c s) = String c (Text.rstrip s).
Proof. simpl. destruct (Text.rstrip s); [congruence | reflexivity]. Qed.

Lemma starts_with_nonempty k s :
  k <> EmptyString -> Text.starts_with k s = true -> s <> EmptyString.
Proof. destruct k, s; simpl; congruence. Qed.

Lemma starts_with_rstrip k :
  ends_clean k = true ->
  forall s, Text.starts_with k s = true ->
            Text.starts_with k (Text.rstrip s) = true.
Proof.
  unfold ends_clean. induction k as [|x k IH]; intros Hk s H; [reflexivity|].
  destruct s as [|y s]; [discriminate|]. simpl in H.
  apply andb_true_iff in H. destruct H as [E H].
  simpl in Hk. destruct k as [|x' k'].
  - simpl in Hk. apply Ascii.eqb_eq in E. subst y. simpl.
    destruct (Text.rstrip s); simpl.
    + apply negb_true_iff in Hk. rewrite Hk. simpl.
      now rewrite Ascii.eqb_refl.
    + now rewrite Ascii.eqb_refl.
  - assert (Hk' : match Spec.last_char (String x' k') with
                  | Some c => negb (Text.is_space c)
                  | None => false
                  end = true).
    { destruct (Spec.last_char (String x' k')) eqn:El; [exact Hk|].
      simpl in El. destruct (Spec.last_char k'); discriminate. }
    specialize (IH Hk' s H).
    rewrite rstrip_cons.
    + simpl. rewrite E. exact IH.
    + eapply starts_with_nonempty; [|exact IH]. discriminate.
Qed.

Lemma contains_nonempty k s :
  k <> EmptyString -> Text.contains k s = true -> s <> EmptyString.
Proof. destruct k, s; simpl; congruence. Qed.

Lemma contains_rstrip k s :
  ends_clean k = true ->
  Text.contains k s = true -> Text.contains k (Text.rstrip s) = true.
Proof.
  intros Hk.
  assert (Hne : k <> EmptyString) by (destruct k; [discriminate | discriminate]).
  induction s as [|c s IH]; [auto|].
  cbn [Text.contains]. rewrite orb_true_iff. intros [H|H].
  - apply (starts_with_rstrip _ Hk) in H.
    destruct (Text.rstrip (String c s)); simpl in *; rewrite H; reflexivity.
  - specialize (IH H). rewrite rstrip_cons.
    + cbn [Text.contains]. rewrite IH. apply orb_true_r.
    + eapply contains_nonempty; eauto.
Qed.

Lemma contains_strip k s :
  starts_clean k = true -> ends_clean k = true ->
  Text.contains k s = true -> Text.contains k (Text.strip s) = true.
Proof.
  intros H1 H2 H. unfold Text.strip.
  now apply contains_rstrip, contains_lstrip.
Qed.

Lemma KEYWORDS_tidy : forallb (fun k => tidy (Text.lower k)) KEYWORDS = true.
Proof. vm_compute. reflexivity. Qed.

(** A tidy text found in [title \n body] is still found when the body is
    extended and then stripped. *)
Lemma occurrence_survives k title body more :
  tidy k = true ->
  Text.contains k (title ++ Text.nl ++ body)%string = true ->
  Text.contains k (title ++ Text.nl ++ Text.strip (body ++ more))%string = true.
Proof.
  unfold tidy. rewrite !andb_true_iff, negb_true_iff.
  intros [[Hnl Hs] He] H.
  assert (Hne : k <> EmptyString) by (destruct k; discriminate).
  change (title ++ Text.nl ++ body)%string
    with (title ++ String (ascii_of_N 10) body)%string in H.
  destruct (@contains_split (ascii_of_N 10) k title body Hne Hnl H) as [Ht|Hb].
  - now apply contains_more_right.
  - apply contains_more_left. change (Text.nl ++ Text.strip (body ++ more))%string
      with (String (ascii_of_N 10) (Text.strip (body ++ more))).
    cbn [Text.contains].
    rewrite (@contains_strip k (body ++ more)%string Hs He
               (@contains_more_right k body more Hb)).
    apply orb_true_r.
Qed.

#[local] Opaque KEYWORDS.

(** X3.  Appending comments never loses a keyword: every keyword matched on
    a post's title and own body is still matched on the title and the body
    with the comments appended, so a post that matches without comments
    matches with them. *)
Theorem augmentation_keeps_keywords :
  forall (B : Builtins) (p : dict) (cm : list json) (augmented : json)
         (k : string),
    augment (selftext_of p) cm = Ret augmented ->
    In k (contains_keywords (plain_text B p) KEYWORDS) ->
    In k (contains_keywords (text_of B (title_of p) augmented) KEYWORDS)
    /\ matches (text_of B (title_of p) augmented) = true.
Proof.
  intros B p cm augmented k Ha Hk.
  assert (Hin : In k (contains_keywords (text_of B (title_of p) augmented)
                                        KEYWORDS)).
  { apply augment_inv in Ha. destruct Ha as (own & parts & Hown & _ & ->).
    unfold plain_text in Hk. rewrite Hown in Hk.
    unfold contains_keywords, Text.to_set in *.
    rewrite sorted_In, nodup_In, filter_In in *.
    destruct Hk as [HK Hc]. split; [exact HK|].
    pose proof KEYWORDS_tidy as Ht. rewrite forallb_forall in Ht.
    specialize (Ht k HK).
    unfold text_of in *. cbn [fmt] in *.
    rewrite !lower_app in *. rewrite lower_strip, !lower_app.
    change (Text.lower Text.nl) with Text.nl in *.
    apply occurrence_survives; assumption. }
  split; [exact Hin|].
  unfold matches.
  destruct (contains_keywords (text_of B (title_of p) augmented) KEYWORDS);
    [contradiction | reflexivity].
Qed.

#[local] Transparent KEYWORDS.

Lemma augmentation_keeps_keywords_witness :
  In "fire"
     (contains_keywords
        (text_of sample_runtime
                 (title_of (sample_item "fire on our street" 1699997000))
                 (JStr "anyone hurt?"))
        KEYWORDS)
  /\ matches
       (text_of sample_runtime
                (title_of (sample_item "fire on our street" 1699997000))
                (JStr "anyone hurt?")) = true.
Proof.
  apply (@augmentation_keeps_keywords sample_runtime
           (sample_item "fire on our street" 1699997000)
           [JStr "  anyone hurt?  "] (JStr "anyone hurt?") "fire").
  - vm_compute. reflexivity.
  - vm_compute. left. reflexivity.
Defined.

(** ** The score grows with engagement *)

Lemma round_half_even_range (q : Q) :
  (Qfloor q <= round_half_even q <= Qfloor q + 1)%Z.
Proof.
  unfold round_half_even.
  destruct ((q - inject_Z (Qfloor q)) ?= (1 # 2))%Q; try lia.
  destruct (Z.even (Qfloor q)); lia.
Qed.

Lemma round_half_even_mono (q q' : Q) :
  (q <= q')%Q -> (round_half_even q <= round_half_even q')%Z.
Proof.
  intros Hle.
  pose proof (Qfloor_resp_le _ _ Hle) as Hf.
  pose proof (round_half_even_range q) as R.
  pose proof (round_half_even_range q') as R'.
  destruct (Z.eq_dec (Qfloor q) (Qfloor q')) as [E|NE]; [|lia].
  unfold round_half_even. rewrite <- E.
  destruct (Qcompare_spec (q - inject_Z (Qfloor q)) (1 # 2)) as [C|C|C];
    destruct (Qcompare_spec (q' - inject_Z (Qfloor q)) (1 # 2)) as [C'|C'|C'];
    try (destruct (Z.even (Qfloor q)); lia); try lia; exfalso; lra.
Qed.

Lemma round2_mono (q q' : Q) : (q <= q')%Q -> (round2 q <= round2 q')%Q.
Proof.
  intros Hle. unfold round2. rewrite !Qred_correct.
  assert (H : (round_half_even (q * 100) <= round_half_even (q' * 100))%Z).
  { apply round_half_even_mono. lra. }
  unfold Qle. cbn [Qnum Qden]. lia.
Qed.

#[local] Opaque contains_keywords high_priority Re.search round2 KEYWORDS.

(** X4.  More upvotes or more comments never lower the score of a post. *)
Theorem score_post_monotone :
  forall (title body : string) (score score' num_comments num_comments' : Q),
    (score <= score')%Q ->
    (num_comments <= num_comments')%Q ->
    (score_post title body score num_comments
     <= score_post title body score' num_comments')%Q.
Proof.
  intros title body sc sc' nc nc' Hs Hn.
  unfold score_post. cbv zeta. apply round2_mono.
  destruct (high_priority (title ++ Text.nl ++ body)%string);
    destruct (Re.search true ALEXANDRIA_PATTERN (title ++ Text.nl ++ body)%string);
    lra.
Qed.

#[local] Transparent contains_keywords high_priority Re.search round2 KEYWORDS.

Lemma score_post_monotone_witness :
  (score_post "fire on King St" "" 3 1 <= score_post "fire on King St" "" 40 12)%Q.
Proof.
  apply score_post_monotone; discriminate.
Defined.

(** ** More on the fetcher *)

Lemma get_json_past_failures sleep_ms body net pre :
  (0 <= sleep_ms)%Z ->
  Forall unsuccessful pre ->
  forall tries,
    (tries + Z.of_nat (List.length pre) <= 3)%Z ->
    get_json_from sleep_ms tries (pre ++ HttpOk body :: net) = Ret (body, net).
Proof.
  intros Hs. induction 1 as [|r pre Hr _ IH]; intros tries Ht.
  - simpl app. now apply get_json_on_success.
  - cbn [List.length] in Ht. cbn [app].
    destruct Hr as [-> | ->].
    + rewrite get_json_on_429. apply IH. lia.
    + rewrite get_json_on_failure.
      destruct (Z.ltb_spec 3 (tries + 1)); [lia|]. apply IH. lia.
Qed.

(** X5.  A request that succeeds after at most three unsuccessful attempts
    (429 responses or other failures, in any order) returns the parsed body
    of the success, and so does one that succeeds after any number of 429
    responses alone. *)
Theorem get_json_retry_succeeds :
  forall (sleep_ms : Z) (pre : list http) (n : nat) (body : json)
         (net : list http),
    (0 <= sleep_ms)%Z ->
    Forall unsuccessful pre ->
    (List.length pre <= 3)%nat ->
    get_json sleep_ms (pre ++ HttpOk body :: net) = Ret (body, net)
    /\ get_json sleep_ms (repeat Http429 n ++ HttpOk body :: net)
       = Ret (body, net).
Proof.
  intros sleep_ms pre n body net Hs Hpre Hlen. unfold get_json. split.
  - apply get_json_past_failures; auto. lia.
  - rewrite get_json_through_429s. now apply get_json_on_success.
Qed.

Lemma get_json_retry_succeeds_witness :
  get_json 600 ([HttpFail; Http429; HttpFail] ++ HttpOk (JStr "page") :: [])
  = Ret (JStr "page", [])
  /\ get_json 600 (repeat Http429 7 ++ HttpOk (JStr "page") :: [])
     = Ret (JStr "page", []).
Proof.
  apply get_json_retry_succeeds.
  - lia.
  - repeat (apply Forall_cons; [unfold unsuccessful; auto|]). apply Forall_nil.
  - simpl. lia.
Defined.

(** X6.  Without 429 responses a call makes at most four requests: when the
    next four exchanges hold no 429, the call returns after at least one and
    at most four of them; what it returns is the empty object or the payload
    of one of these four exchanges, and it is the empty object, after exactly
    four requests, when all four fail. *)
Theorem get_json_at_most_four_requests :
  forall (sleep_ms : Z) (net : list http),
    (4 <= List.length net)%nat ->
    Forall (fun r => r <> Http429) (firstn 4 net) ->
    exists j net',
      get_json sleep_ms net = Ret (j, net')
      /\ (1 <= List.length net - List.length net' <= 4)%nat
      /\ (j = JObj [] \/ In (HttpOk j) (firstn 4 net))
      /\ (firstn 4 net = repeat HttpFail 4 ->
          j = JObj [] /\ net' = skipn 4 net).
Proof.
  intros sleep_ms net Hlen Hno.
  destruct net as [|r1 [|r2 [|r3 [|r4 rest]]]]; simpl in Hlen; try lia.
  cbn [firstn skipn repeat] in *.
  inversion Hno as [|? ? H1 Hno1]; subst.
  inversion Hno1 as [|? ? H2 Hno2]; subst.
  inversion Hno2 as [|? ? H3 Hno3]; subst.
  inversion Hno3 as [|? ? H4 _]; subst.
  unfold get_json.
  destruct r1; [congruence| |]; destruct r2; try congruence;
    destruct r3; try congruence; destruct r4; try congruence;
    cbn [get_json_from]; destruct (sleep_ms <? 0)%Z;
    cbn [Z.add Z.ltb Z.compare Pos.add Pos.succ Pos.compare Pos.compare_cont];
    eexists; eexists;
    (split; [reflexivity|];
     split; [cbn [List.length]; lia|];
     split; [first [left; reflexivity | right; cbn [In]; tauto]|];
     intros E; first [discriminate E | split; reflexivity]).
Qed.

Lemma get_json_at_most_four_requests_witness :
  exists j net',
    get_json 600 [HttpFail; HttpFail; HttpFail; HttpFail; HttpOk (JStr "page")]
    = Ret (j, net')
    /\ (1 <= List.length [HttpFail; HttpFail; HttpFail; HttpFail;
                          HttpOk (JStr "page")]
             - List.length net' <= 4)%nat
    /\ (j = JObj []
        \/ In (HttpOk j)
              (firstn 4 [HttpFail; HttpFail; HttpFail; HttpFail;
                         HttpOk (JStr "page")]))
    /\ (firstn 4 [HttpFail; HttpFail; HttpFail; HttpFail; HttpOk (JStr "page")]
        = repeat HttpFail 4 ->
        j = JObj []
        /\ net' = skipn 4 [HttpFail; HttpFail; HttpFail; HttpFail;
                           HttpOk (JStr "page")]).
Proof.
  apply get_json_at_most_four_requests.
  - simpl. lia.
  - repeat (apply Forall_cons; [discriminate|]). apply Forall_nil.
Defined.

Lemma get_json_negative_sleep sleep_ms net :
  (sleep_ms < 0)%Z ->
  forall tries j net',
    get_json_from sleep_ms tries net = Ret (j, net') -> j = JObj [].
Proof.
  intros Hs. induction net as [|r net IH]; intros tries j net' H; simpl in H;
    [discriminate|].
  apply Z.ltb_lt in Hs. rewrite Hs in H.
  destruct r.
  - eapply IH; eauto.
  - destruct (3 <? tries + 1)%Z; [inversion H; reflexivity | eapply IH; eauto].
  - destruct (3 <? tries + 1)%Z; [inversion H; reflexivity | eapply IH; eauto].
Qed.

(** X7.  With a negative [sleep_ms] no request ever delivers a payload: the
    sleep after a successful response raises inside the [try], the success
    is handled as a failure, and the call either gives the empty result or
    is still retrying when the scripted exchanges end. *)
Theorem get_json_negative_sleep_gives_nothing :
  forall (sleep_ms : Z) (net : list http),
    (sleep_ms < 0)%Z ->
    get_json sleep_ms net = Blocked
    \/ exists net', get_json sleep_ms net = Ret (JObj [], net').
Proof.
  intros sleep_ms net Hs. unfold get_json.
  destruct (get_json_from sleep_ms 0 net) as [[j net']|e|] eqn:E.
  - right. exists net'.
    rewrite (@get_json_negative_sleep sleep_ms net Hs 0%Z j net' E).
    reflexivity.
  - exfalso. exact (@get_json_never_raises sleep_ms net 0%Z e E).
  - now left.
Qed.

Lemma get_json_negative_sleep_gives_nothing_witness :
  get_json (-5) (repeat (HttpOk (JStr "page")) 4) = Blocked
  \/ exists net',
       get_json (-5) (repeat (HttpOk (JStr "page")) 4) = Ret (JObj [], net').
Proof.
  apply get_json_negative_sleep_gives_nothing. reflexivity.
Defined.

(** ** More on the walker and the orchestrator *)

(** A fetch that gives the empty result ends the walk with what was
    gathered. *)
Lemma page_loop_on_empty_result B since_utc max_items sleep_ms fuel out net
      net' :
  (len out < max_items)%Z ->
  get_json sleep_ms net = Ret (JObj [], net') ->
  page_loop B (S fuel) since_utc max_items sleep_ms out net = Ret (out, net').
Proof.
  intros Hlt Hget. cbn [page_loop].
  apply Z.ltb_lt in Hlt. rewrite Hlt.
  unfold bind at 1. rewrite Hget. reflexivity.
Qed.

Lemma page_loop_negative_sleep B since_utc max_items sleep_ms :
  (sleep_ms < 0)%Z ->
  forall fuel out net out' net',
    page_loop B fuel since_utc max_items sleep_ms out net = Ret (out', net') ->
    out' = out.
Proof.
  intros Hs fuel out net out' net' H.
  destruct fuel as [|fuel]; simpl in H;
    destruct (len out <? max_items)%Z; try discriminate;
    try (step_ret H; reflexivity).
  step_ret H. unfold get_json in Hc.
  eapply get_json_negative_sleep in Hc; [|exact Hs]. subst a.
  cbn in H. step_ret H. reflexivity.
Qed.

#[local] Opaque matches contains_keywords high_priority score_post.

Lemma harvest_subs_negative_sleep B since_utc max_per_sub include_comments
      comments_limit sleep_ms :
  (sleep_ms < 0)%Z ->
  forall subs rows net rows' net',
    harvest_subs B subs since_utc max_per_sub include_comments comments_limit
                 sleep_ms rows net = Ret (rows', net') ->
    rows' = rows.
Proof.
  intros Hs subs. induction subs as [|s subs IH]; intros rows net rows' net' H;
    cbn [harvest_subs] in H.
  - step_ret H. reflexivity.
  - do 2 step_ret H. unfold list_new_posts in Hc.
    eapply page_loop_negative_sleep in Hc; [|exact Hs]. subst a.
    cbn [process_posts] in Hc0. step_ret Hc0.
    eapply IH; eauto.
Qed.

(** X8.  With a negative [sleep_ms], [harvest] never returns a row: every
    listing request comes back empty. *)
Theorem harvest_negative_sleep_is_empty :
  forall (B : Builtins) (now : Q) (subs : list string) (hours max_per_sub : Z)
         (include_comments : bool) (comments_limit sleep_ms : Z)
         (net : list http) (rows : list MatchedRow) (net' : list http),
    (sleep_ms < 0)%Z ->
    harvest B now subs hours max_per_sub include_comments comments_limit
            sleep_ms net = Ret (rows, net') ->
    rows = [].
Proof.
  intros B now subs hours max_per_sub include_comments comments_limit sleep_ms
         net rows net' Hs H.
  apply harvest_sorts in H. destruct H as (enc & Hcol & Hsort).
  unfold collect in Hcol. step_ret Hcol.
  eapply harvest_subs_negative_sleep in Hcol; [|exact Hs]. subst enc.
  simpl in Hsort. inversion Hsort. reflexivity.
Qed.

#[local] Transparent matches contains_keywords high_priority score_post.

Lemma harvest_negative_sleep_is_empty_witness :
  harvest sample_runtime 1700000000 ["AlexandriaVA"] 48 300 false 20 (-600)
          (sample_feed ++ sample_feed ++ sample_feed ++ sample_feed)
  = Ret ([], [])
  /\ @nil MatchedRow = [].
Proof.
  split; [vm_compute; reflexivity|].
  exact (@harvest_negative_sleep_is_empty sample_runtime 1700000000
           ["AlexandriaVA"] 48 300 false 20 (-600)
           (sample_feed ++ sample_feed ++ sample_feed ++ sample_feed) [] []
           ltac:(reflexivity) ltac:(vm_compute; reflexivity)).
Defined.





(** X10.  When a page holds at least [cap] fresh items before anything
    else, the walker returns exactly the first [cap] of them after that one
    request; what follows them on the page is not looked at. *)
Theorem list_new_posts_fills_cap :
  forall (B : Builtins) (since_utc : Q) (max_items sleep_ms : Z)
         (net : list http) (data : json) (net' : list http) (d listing : dict)
         (pre rest : list json) (posts : list dict),
    get_json sleep_ms net = Ret (data, net') ->
    as_dict data = Ret d ->
    as_dict (get d "data" (JObj [])) = Ret listing ->
    get listing "children" (JArr []) = JArr (pre ++ rest) ->
    Forall2 (fresh B since_utc) pre posts ->
    posts <> [] ->
    len posts = max_items ->
    list_new_posts B since_utc max_items sleep_ms net = Ret (posts, net').
Proof.
  intros B since_utc max_items sleep_ms net data net' d listing pre rest posts
         Hget Hd Hl Hch Hpre Hne Hlen.
  unfold list_new_posts.
  assert (Hlt : (len (@nil dict) < max_items)%Z).
  { rewrite <- Hlen. destruct posts; [congruence|]. unfold len. simpl. lia. }
  assert (Hne' : pre ++ rest <> []).
  { inversion Hpre; subst; [congruence | discriminate]. }
  rewrite (@page_loop_turn B since_utc max_items sleep_ms (List.length net) []
             net data net' d listing (pre ++ rest) Hlt Hget Hd Hl Hch Hne').
  rewrite (@scan_children_fills B since_utc max_items pre posts Hpre rest []
             Hne ltac:(unfold len in *; simpl; lia)).
  reflexivity.
Qed.

Lemma list_new_posts_fills_cap_witness :
  list_new_posts sample_runtime 1000 2 0
    [HttpOk (listing_page [child (sample_post "a" 5000);
                           child (sample_post "b" 4000);
                           JStr "not a post"] (JStr "t3_b"))]
  = Ret ([sample_post "a" 5000; sample_post "b" 4000], []).
Proof.
  eapply (@list_new_posts_fills_cap sample_runtime 1000 2 0 _ _ [] _ _
            [child (sample_post "a" 5000); child (sample_post "b" 4000)]
            [JStr "not a post"]
            [sample_post "a" 5000; sample_post "b" 4000]).
  - reflexivity.
  - reflexivity.
  - reflexivity.
  - reflexivity.
  - repeat (apply Forall2_cons;
            [split; [reflexivity|]; eexists; split; [reflexivity|discriminate]|]).
    apply Forall2_nil.
  - discriminate.
  - reflexivity.
Defined.

(** X11.  A source whose first listing request gives the empty result (after
    four failures, say) adds no row and does not stop the run: [harvest]
    goes on with the remaining sources on the rest of the script. *)
Theorem harvest_skips_failed_source :
  forall (B : Builtins) (now : Q) (sub : string) (subs : list string)
         (hours max_per_sub : Z) (include_comments : bool)
         (comments_limit sleep_ms : Z) (net net1 : list http),
    (0 < max_per_sub)%Z ->
    get_json sleep_ms net = Ret (JObj [], net1) ->
    harvest B now (sub :: subs) hours max_per_sub include_comments
            comments_limit sleep_ms net
    = harvest B now subs hours max_per_sub include_comments comments_limit
              sleep_ms net1.
Proof.
  intros B now sub subs hours max_per_sub include_comments comments_limit
         sleep_ms net net1 Hmax Hget.
  assert (Hcol :
    collect B now (sub :: subs) hours max_per_sub include_comments
            comments_limit sleep_ms net
    = collect B now subs hours max_per_sub include_comments comments_limit
              sleep_ms net1).
  { unfold collect, bind, lift.
    destruct (cutoff now hours) as [since_utc| |]; try reflexivity.
    cbn [harvest_subs]. unfold bind at 1. unfold list_new_posts.
    rewrite (@page_loop_on_empty_result B since_utc max_per_sub sleep_ms
               (List.length net) [] net net1 Hmax Hget).
    reflexivity. }
  unfold harvest, bind. rewrite Hcol. reflexivity.
Qed.

(** ** The comment fetcher *)

Lemma scan_comments_bound limit items :
  forall out,
    (len (scan_comments limit items out) <= Z.max limit (len out + 1))%Z.
Proof.
  induction items as [|it rest IH]; intros out; cbn [scan_comments]; [lia|].
  destruct (as_dict it) as [d| |]; try lia.
  destruct (is_t1 (get d "kind" JNull)); [|apply IH].
  destruct (as_dict (get d "data" (JObj []))) as [dd| |]; try lia.
  cbv zeta.
  set (out' := if truthy (py_or (get dd "body" (JStr "")) (JStr ""))
               then out ++ [py_or (get dd "body" (JStr "")) (JStr "")]
               else out).
  assert (Hout' : (len out' <= len out + 1)%Z).
  { subst out'. destruct (truthy _); [|lia].
    rewrite len_app. unfold len. simpl. lia. }
  destruct (Z.leb_spec limit (len out')); [lia|].
  specialize (IH out'). lia.
Qed.

Lemma list_comments_inv limit sleep_ms net cm net' :
  list_comments limit sleep_ms net = Ret (cm, net') ->
  exists data,
    get_json sleep_ms net = Ret (data, net') /\ cm = comments_of limit data.
Proof.
  unfold list_comments. intros H. do 2 step_ret H. eauto.
Qed.

(** X12.  [list_comments] returns at most [max(1, limit)] comments: at most
    [limit] for a positive limit, and still up to one for a limit of zero or
    less, the limit being tested after a record is handled, not before. *)
Theorem list_comments_bound :
  forall (limit sleep_ms : Z) (net : list http) (cm : list json)
         (net' : list http),
    list_comments limit sleep_ms net = Ret (cm, net') ->
    (len cm <= Z.max 1 limit)%Z.
Proof.
  intros limit sleep_ms net cm net' H.
  apply list_comments_inv in H. destruct H as (data & _ & ->).
  unfold comments_of.
  destruct data as [| | | |items|]; try (unfold len; simpl; lia).
  destruct items as [|first [|second more]]; try (unfold len; simpl; lia).
  destruct (d <~ as_dict second;;
            dd <~ as_dict (get d "data" (JObj []));;
            iter_items (get dd "children" (JArr [])));
    try (unfold len; simpl; lia).
  pose proof (scan_comments_bound limit a []) as Hb.
  unfold len in *. simpl in *. lia.
Qed.

Lemma scan_comments_from limit all items :
  forall out,
    (forall it, In it items -> In it all) ->
    Forall (fun c => exists it, In it all /\ comment_of it c) out ->
    Forall (fun c => exists it, In it all /\ comment_of it c)
           (scan_comments limit items out).
Proof.
  induction items as [|it rest IH]; intros out Hsub Hout; cbn [scan_comments];
    [exact Hout|].
  assert (Hrest : forall it', In it' rest -> In it' all)
    by (intros it' Hi; apply Hsub; now right).
  destruct (as_dict it) as [d| |] eqn:Ed; try exact Hout.
  destruct (is_t1 (get d "kind" JNull)) eqn:Et; [|now apply IH].
  destruct (as_dict (get d "data" (JObj []))) as [dd| |] eqn:Edd;
    try exact Hout.
  cbv zeta.
  assert (Hout' : Forall (fun c => exists it, In it all /\ comment_of it c)
                    (if truthy (py_or (get dd "body" (JStr "")) (JStr ""))
                     then out ++ [py_or (get dd "body" (JStr "")) (JStr "")]
                     else out)).
  { destruct (truthy (py_or (get dd "body" (JStr "")) (JStr ""))) eqn:Eb;
      [|exact Hout].
    apply Forall_app. split; [exact Hout|]. constructor; [|constructor].
    exists it. split; [apply Hsub; now left|].
    exists d, dd. unfold py_or in *.
    destruct (truthy (get dd "body" (JStr ""))) eqn:Eg; [|discriminate].
    auto. }
  destruct (limit <=? len _)%Z; [exact Hout'|].
  now apply IH.
Qed.

(** X13.  Every comment that [list_comments] returns is the non-empty body
    of a record of kind ["t1"] among the children of the second element of
    the payload that the request returned; records of another kind and
    empty bodies are left out. *)
Theorem list_comments_contents :
  forall (limit sleep_ms : Z) (net : list http) (cm : list json)
         (net' : list http),
    list_comments limit sleep_ms net = Ret (cm, net') ->
    exists data,
      get_json sleep_ms net = Ret (data, net')
      /\ Forall (fun c => exists it, listed data it /\ comment_of it c) cm.
Proof.
  intros limit sleep_ms net cm net' H.
  apply list_comments_inv in H. destruct H as (data & Hget & ->).
  exists data. split; [exact Hget|].
  unfold comments_of.
  destruct data as [| | | |items|]; try constructor.
  destruct items as [|first [|second more]]; try constructor.
  destruct (as_dict second) as [d| |] eqn:Ed; simpl; try constructor.
  destruct (as_dict (get d "data" (JObj []))) as [dd| |] eqn:Edd; simpl;
    try constructor.
  destruct (iter_items (get dd "children" (JArr []))) as [its| |] eqn:Ei;
    try constructor.
  pose proof (@scan_comments_from limit its its [] (fun _ H => H)
                ltac:(constructor)) as Hall.
  eapply Forall_impl; [|exact Hall]. cbv beta.
  intros c (it & Hin & Hc). exists it. split; [|exact Hc].
  exists first, second, more, d, dd, its. auto.
Qed.

Lemma list_comments_bound_witness :
  list_comments 0 0 [HttpOk sample_comments] = Ret ([JStr "stay safe"], [])
  /\ (len [JStr "stay safe"] <= Z.max 1 0)%Z.
Proof.
  split; [reflexivity|].
  exact (@list_comments_bound 0 0 [HttpOk sample_comments] [JStr "stay safe"]
           [] eq_refl).
Defined.

Lemma list_comments_contents_witness :
  exists data,
    get_json 0 [HttpOk sample_comments] = Ret (data, [])
    /\ Forall (fun c => exists it, listed data it /\ comment_of it c)
              [JStr "stay safe"; JStr "shots fired nearby"].
Proof.
  exact (@list_comments_contents 20 0 [HttpOk sample_comments]
           [JStr "stay safe"; JStr "shots fired nearby"] [] eq_refl).
Defined.

(** ** More on the result of [harvest] *)

#[local] Opaque matches contains_keywords high_priority score_post.

Lemma process_posts_count B include_comments comments_limit sleep_ms posts :
  forall rows net rows' net',
    process_posts B include_comments comments_limit sleep_ms posts rows net
    = Ret (rows', net') ->
    (len rows' <= len rows + len posts)%Z.
Proof.
  induction posts as [|p posts IH]; intros rows net rows' net' H;
    cbn [process_posts] in H.
  - step_ret H. unfold len. simpl. lia.
  - step_ret H. apply process_post_inv in Hc.
    destruct Hc as (body & _ & Hrow).
    apply IH in H.
    assert (Ha : (len a <= len rows + 1)%Z).
    { destruct (matches (text_of B (title_of p) body)).
      - destruct Hrow as (r & _ & ->). rewrite len_app. unfold len. simpl. lia.
      - subst a. lia. }
    unfold len in *. cbn [List.length]. lia.
Qed.

Lemma harvest_subs_count B since_utc max_per_sub include_comments
      comments_limit sleep_ms subs :
  forall rows net rows' net',
    harvest_subs B subs since_utc max_per_sub include_comments comments_limit
                 sleep_ms rows net = Ret (rows', net') ->
    (len rows' <= len rows + len subs * Z.max 0 max_per_sub)%Z.
Proof.
  induction subs as [|s subs IH]; intros rows net rows' net' H;
    cbn [harvest_subs] in H.
  - step_ret H. unfold len. simpl. lia.
  - do 2 step_ret H.
    unfold list_new_posts in Hc. apply page_loop_bound in Hc.
    apply process_posts_count in Hc0. apply IH in H.
    unfold len in *. cbn [List.length] in *. lia.
Qed.

(** X14.  [harvest] returns at most [len(subs) * max(0, max_per_sub)]
    rows. *)
Theorem harvest_row_bound :
  forall (B : Builtins) (now : Q) (subs : list string) (hours max_per_sub : Z)
         (include_comments : bool) (comments_limit sleep_ms : Z)
         (net : list http) (rows : list MatchedRow) (net' : list http),
    harvest B now subs hours max_per_sub include_comments comments_limit
            sleep_ms net = Ret (rows, net') ->
    (len rows <= len subs * Z.max 0 max_per_sub)%Z.
Proof.
  intros B now subs hours max_per_sub include_comments comments_limit sleep_ms
         net rows net' H.
  apply harvest_sorts in H. destruct H as (enc & Hcol & Hsort).
  unfold collect in Hcol. step_ret Hcol.
  apply harvest_subs_count in Hcol.
  apply sort_rows_perm, Permutation_length in Hsort.
  unfold len in *. simpl in Hcol. lia.
Qed.

Lemma build_row_constants B p title body r :
  build_row B p title body = Ret r ->
  row_comments_scanned r = 0%Z
  /\ Text.starts_with "https://reddit.com" (row_permalink r) = true
  /\ (truthy (row_created_utc r) = false -> row_created_iso r = "").
Proof.
  unfold build_row. intros H. do 3 step_ret H. inversion H; subst.
  cbn [row_comments_scanned row_permalink row_created_utc row_created_iso].
  split; [reflexivity|]. split.
  - apply starts_with_app. eexists. reflexivity.
  - intros Hf. rewrite Hf in Hc. inversion Hc. reflexivity.
Qed.

(** X15.  In every row that [harvest] returns, [comments_scanned] is 0
    (also when comments were fetched), the permalink begins with
    [https://reddit.com], and [created_iso] is empty when [created_utc] is
    missing, null or zero. *)
Theorem harvest_row_constants :
  forall (B : Builtins) (now : Q) (subs : list string) (hours max_per_sub : Z)
         (include_comments : bool) (comments_limit sleep_ms : Z)
         (net : list http) (rows : list MatchedRow) (net' : list http),
    harvest B now subs hours max_per_sub include_comments comments_limit
            sleep_ms net = Ret (rows, net') ->
    Forall (fun r =>
              row_comments_scanned r = 0%Z
              /\ Text.starts_with "https://reddit.com" (row_permalink r) = true
              /\ (truthy (row_created_utc r) = false -> row_created_iso r = ""))
           rows.
Proof.
  intros B now subs hours max_per_sub include_comments comments_limit sleep_ms
         net rows net' H.
  apply harvest_rows in H. destruct H as (since_utc & _ & HF).
  eapply Forall_impl; [|exact HF]. cbv beta.
  intros r (posts & n1 & n2 & p & body & n3 & n4 & _ & _ & _ & _ & Hrow).
  exact (build_row_constants _ _ _ _ Hrow).
Qed.

#[local] Transparent matches contains_keywords high_priority score_post.

Lemma harvest_row_bound_witness :
  (len comment_rows <= len ["AlexandriaVA"] * Z.max 0 300)%Z.
Proof.
  exact (@harvest_row_bound sample_runtime 1700000000 ["AlexandriaVA"] 48 300
           true 20 0 comment_feed comment_rows []
           ltac:(vm_compute; reflexivity)).
Defined.

Lemma harvest_row_constants_witness :
  Forall (fun r =>
            row_comments_scanned r = 0%Z
            /\ Text.starts_with "https://reddit.com" (row_permalink r) = true
            /\ (truthy (row_created_utc r) = false -> row_created_iso r = ""))
         comment_rows.
Proof.
  exact (@harvest_row_constants sample_runtime 1700000000 ["AlexandriaVA"] 48
           300 true 20 0 comment_feed comment_rows []
           ltac:(vm_compute; reflexivity)).
Defined.

Lemma harvest_skips_failed_source_witness :
  harvest sample_runtime 1700000000 ["nova"; "AlexandriaVA"] 48 300 false 20 0
          (repeat HttpFail 4 ++ sample_feed)
  = harvest sample_runtime 1700000000 ["AlexandriaVA"] 48 300 false 20 0
            sample_feed.
Proof.
  apply harvest_skips_failed_source; reflexivity.
Defined.

(** X16.  A window that reaches outside the years 1 to 9999 makes [harvest]
    raise [OverflowError] at once: no request is made. *)
Theorem harvest_window_out_of_range :
  forall (B : Builtins) (now : Q) (subs : list string) (hours max_per_sub : Z)
         (include_comments : bool) (comments_limit sleep_ms : Z)
         (net : list http),
    (now - 3600 * inject_Z hours < DATETIME_MIN)%Q
    \/ (DATETIME_END <= now - 3600 * inject_Z hours)%Q ->
    harvest B now subs hours max_per_sub include_comments comments_limit
            sleep_ms net = Raise OverflowError.
Proof.
  intros B now subs hours max_per_sub include_comments comments_limit sleep_ms
         net Hout.
  assert (Hc : cutoff now hours = Raise OverflowError).
  { unfold cutoff. cbv zeta.
    destruct Hout as [H|H].
    - destruct (Qle_bool DATETIME_MIN (now - 3600 * inject_Z hours)) eqn:E;
        [|reflexivity].
      apply Qle_bool_iff in E. exfalso. exact (Qlt_not_le _ _ H E).
    - apply Qltb_ge in H. rewrite H. rewrite andb_false_r. reflexivity. }
  unfold harvest, collect, bind, lift. rewrite Hc. reflexivity.
Qed.

Lemma harvest_window_out_of_range_witness :
  harvest sample_runtime 1700000000 ["AlexandriaVA"] 20000000 300 false 20 0
          sample_feed
  = Raise OverflowError.
Proof.
  apply harvest_window_out_of_range. left. reflexivity.
Defined.

(** ** The .env loader *)

Lemma getenv_app key env more :
  Dotenv.getenv key (env ++ more) =
  match Dotenv.getenv key env with
  | Some v => Some v
  | None => Dotenv.getenv key more
  end.
Proof.
  induction env as [|[k v] env IH]; simpl; [reflexivity|].
  destruct (String.eqb key k); auto.
Qed.

Lemma getenv_single key val : Dotenv.getenv key [(key, val)] = Some val.
Proof. simpl. rewrite String.eqb_refl. reflexivity. Qed.

Lemma load_line_inv line env env' :
  Dotenv.load_line line env = Ret env' ->
  env' = env
  \/ exists key val,
       Dotenv.parse_line line = Some (key, val) /\ key <> EmptyString
       /\ Dotenv.getenv key env = None /\ env' = env ++ [(key, val)].
Proof.
  unfold Dotenv.load_line.
  destruct (Dotenv.parse_line line) as [[key val]|];
    [|intros H; inversion H; auto].
  destruct key as [|c key]; [intros H; inversion H; auto|].
  destruct (Dotenv.getenv (String c key) env) eqn:E;
    [intros H; inversion H; auto|].
  unfold Dotenv.putenv.
  destruct (Dotenv.has_char Dotenv.NUL (String c key)
            || Dotenv.has_char Dotenv.NUL val)%bool; [discriminate|].
  intros H. inversion H. right. exists (String c key), val.
  repeat split; auto. discriminate.
Qed.

Lemma load_lines_inv lines :
  forall env env',
    Dotenv.load_lines lines env = Ret env' ->
    exists added,
      env' = env ++ added
      /\ NoDup (map fst added)
      /\ Forall (fun kv =>
                   fst kv <> EmptyString
                   /\ Dotenv.getenv (fst kv) env = None
                   /\ exists line,
                        In line lines /\ Dotenv.parse_line line = Some kv)
                added.
Proof.
  induction lines as [|line rest IH]; intros env env' H; cbn [Dotenv.load_lines] in H.
  - inversion H. exists []. rewrite app_nil_r. repeat split; constructor.
  - destruct (Dotenv.load_line line env) as [e1| |] eqn:E1; try discriminate.
    cbn [obind] in H. apply IH in H. destruct H as (added & -> & Hnd & HF).
    apply load_line_inv in E1. destruct E1 as [->|(key & val & Hp & Hk & Hg & ->)].
    + exists added. repeat split; auto.
      eapply Forall_impl; [|exact HF]. cbv beta.
      intros kv (H1 & H2 & l & Hl & H3). repeat split; auto.
      exists l. split; [right; exact Hl | exact H3].
    + exists ((key, val) :: added). rewrite <- app_assoc. split; [reflexivity|].
      split.
      * cbn [map fst]. constructor; [|exact Hnd].
        intros Hin. apply in_map_iff in Hin. destruct Hin as (kv & Hfst & Hin).
        rewrite Forall_forall in HF. destruct (HF kv Hin) as (_ & Hn & _).
        rewrite Hfst, getenv_app, Hg, getenv_single in Hn. discriminate.
      * constructor.
        -- cbn [fst]. repeat split; auto. exists line. split; [left|]; auto.
        -- eapply Forall_impl; [|exact HF]. cbv beta.
           intros kv (H1 & H2 & l & Hl & H3). repeat split; auto.
           ++ rewrite getenv_app in H2.
              destruct (Dotenv.getenv (fst kv) env); [discriminate|reflexivity].
           ++ exists l. split; [right; exact Hl | exact H3].
Qed.

Lemma load_lines_keeps lines env env' key v :
  Dotenv.load_lines lines env = Ret env' ->
  Dotenv.getenv key env = Some v ->
  Dotenv.getenv key env' = Some v.
Proof.
  intros H Hg. apply load_lines_inv in H. destruct H as (added & -> & _).
  rewrite getenv_app, Hg. reflexivity.
Qed.

(** X17.  [load_dotenv_from] only adds variables: the new environment is the
    old one followed by the added variables, so every variable that was set
    keeps its value; each added variable has a non-empty key that was not
    set, is added once, and is what some line of the file assigns. *)
Theorem load_dotenv_from_only_adds :
  forall (file : option string) (env env' : Dotenv.environ),
    Dotenv.load_dotenv_from file env = Ret env' ->
    (forall key v, Dotenv.getenv key env = Some v ->
                   Dotenv.getenv key env' = Some v)
    /\ exists added,
         env' = env ++ added
         /\ NoDup (map fst added)
         /\ Forall (fun kv =>
                      fst kv <> EmptyString
                      /\ Dotenv.getenv (fst kv) env = None
                      /\ exists text line,
                           file = Some text
                           /\ In line (Dotenv.splitlines text)
                           /\ Dotenv.parse_line line = Some kv)
                   added.
Proof.
  intros [text|] env env' H; cbn [Dotenv.load_dotenv_from] in H.
  - split.
    + intros key v. exact (load_lines_keeps _ _ _ H).
    + apply load_lines_inv in H. destruct H as (added & He & Hnd & HF).
      exists added. repeat split; auto.
      eapply Forall_impl; [|exact HF]. cbv beta.
      intros kv (H1 & H2 & l & Hl & H3). repeat split; auto.
      exists text, l. auto.
  - inversion H. subst. split; [auto|].
    exists []. rewrite app_nil_r. repeat split; constructor.
Qed.

Lemma load_dotenv_from_only_adds_witness :
  (forall key v,
      Dotenv.getenv key [("REDDIT_USER_AGENT", "cli/1.0")] = Some v ->
      Dotenv.getenv key [("REDDIT_USER_AGENT", "cli/1.0");
                         ("REDDIT_CLIENT_ID", "abc")] = Some v)
  /\ exists added,
       [("REDDIT_USER_AGENT", "cli/1.0"); ("REDDIT_CLIENT_ID", "abc")]
       = [("REDDIT_USER_AGENT", "cli/1.0")] ++ added
       /\ NoDup (map fst added)
       /\ Forall (fun kv =>
                    fst kv <> EmptyString
                    /\ Dotenv.getenv (fst kv) [("REDDIT_USER_AGENT", "cli/1.0")]
                       = None
                    /\ exists text line,
                         Some ("# keys" ++ Text.nl
                               ++ "REDDIT_USER_AGENT=file/2.0" ++ Text.nl
                               ++ "REDDIT_CLIENT_ID = 'abc'" ++ Text.nl)%string
                         = Some text
                         /\ In line (Dotenv.splitlines text)
                         /\ Dotenv.parse_line line = Some kv)
                 added.
Proof.
  exact (@load_dotenv_from_only_adds
           (Some ("# keys" ++ Text.nl ++ "REDDIT_USER_AGENT=file/2.0" ++ Text.nl
                  ++ "REDDIT_CLIENT_ID = 'abc'" ++ Text.nl)%string)
           [("REDDIT_USER_AGENT", "cli/1.0")]
           [("REDDIT_USER_AGENT", "cli/1.0"); ("REDDIT_CLIENT_ID", "abc")]
           eq_refl).
Defined.

Lemma load_lines_first pre :
  forall env env' line post key val,
    Dotenv.load_lines (pre ++ line :: post) env = Ret env' ->
    Dotenv.parse_line line = Some (key, val) ->
    key <> EmptyString ->
    Dotenv.getenv key env = None ->
    Forall (fun l => forall v, Dotenv.parse_line l <> Some (key, v)) pre ->
    Dotenv.getenv key env' = Some val.
Proof.
  induction pre as [|l pre IH]; intros env env' line post key val H Hp Hk Hg Hpre;
    cbn [app Dotenv.load_lines] in H.
  - destruct (Dotenv.load_line line env) as [e1| |] eqn:E1; try discriminate.
    cbn [obind] in H.
    apply (@load_lines_keeps post e1 env' key val H).
    unfold Dotenv.load_line in E1. rewrite Hp in E1.
    destruct key as [|c key]; [contradiction|]. rewrite Hg in E1.
    unfold Dotenv.putenv in E1.
    destruct (Dotenv.has_char Dotenv.NUL (String c key)
              || Dotenv.has_char Dotenv.NUL val)%bool; [discriminate|].
    inversion E1. rewrite getenv_app, Hg. apply getenv_single.
  - destruct (Dotenv.load_line l env) as [e1| |] eqn:E1; try discriminate.
    cbn [obind] in H. inversion Hpre as [|? ? Hl Hrest]; subst.
    apply (IH e1 env' line post key val H Hp Hk); [|exact Hrest].
    apply load_line_inv in E1. destruct E1 as [->|(k & v & Hpl & _ & _ & ->)].
    + exact Hg.
    + rewrite getenv_app, Hg. simpl.
      destruct (String.eqb key k) eqn:E; [|reflexivity].
      apply String.eqb_eq in E. subst k. exfalso. exact (Hl v Hpl).
Qed.

(** X18.  When several lines of the file assign the same key, the first one
    counts: a variable that was not set gets the value of the first line that
    assigns it. *)
Theorem load_dotenv_from_first_assignment_wins :
  forall (text : string) (env env' : Dotenv.environ)
         (pre : list string) (line : string) (post : list string)
         (key val : string),
    Dotenv.load_dotenv_from (Some text) env = Ret env' ->
    Dotenv.splitlines text = pre ++ line :: post ->
    Dotenv.parse_line line = Some (key, val) ->
    key <> EmptyString ->
    Dotenv.getenv key env = None ->
    Forall (fun l => forall v, Dotenv.parse_line l <> Some (key, v)) pre ->
    Dotenv.getenv key env' = Some val.
Proof.
  intros text env env' pre line post key val H Hs.
  cbn [Dotenv.load_dotenv_from] in H. rewrite Hs in H.
  exact (@load_lines_first pre env env' line post key val H).
Qed.

Lemma load_dotenv_from_first_assignment_wins_witness :
  Dotenv.getenv "MODE" [("MODE", "live"); ("DEBUG", "1")] = Some "live".
Proof.
  apply (@load_dotenv_from_first_assignment_wins
           ("# settings" ++ Text.nl ++ "MODE=live" ++ Text.nl ++ "DEBUG=1"
            ++ Text.nl ++ "MODE=test")%string
           [] [("MODE", "live"); ("DEBUG", "1")]
           ["# settings"] "MODE=live" ["DEBUG=1"; "MODE=test"] "MODE" "live").
  - reflexivity.
  - reflexivity.
  - reflexivity.
  - discriminate.
  - reflexivity.
  - apply Forall_cons; [|apply Forall_nil]. intros v. vm_compute. discriminate.
Defined.

Lemma load_lines_settles lines :
  forall env env',
    Dotenv.load_lines lines env = Ret env' ->
    forall l, In l lines -> Dotenv.load_line l env' = Ret env'.
Proof.
  induction lines as [|line rest IH]; intros env env' H l Hin;
    [contradiction|].
  cbn [Dotenv.load_lines] in H.
  destruct (Dotenv.load_line line env) as [e1| |] eqn:E1; try discriminate.
  cbn [obind] in H. destruct Hin as [<-|Hin]; [|exact (IH e1 env' H l Hin)].
  unfold Dotenv.load_line in *.
  destruct (Dotenv.parse_line line) as [[key val]|]; [|reflexivity].
  destruct key as [|c key]; [reflexivity|].
  assert (Hset : exists v, Dotenv.getenv (String c key) e1 = Some v).
  { destruct (Dotenv.getenv (String c key) env) eqn:Eg.
    - inversion E1. subst e1. eauto.
    - unfold Dotenv.putenv in E1.
      destruct (Dotenv.has_char Dotenv.NUL (String c key)
                || Dotenv.has_char Dotenv.NUL val)%bool; [discriminate|].
      inversion E1. exists val. rewrite getenv_app, Eg. apply getenv_single. }
  destruct Hset as (v & Hv).
  rewrite (@load_lines_keeps rest e1 env' (String c key) v H Hv). reflexivity.
Qed.

Lemma load_lines_settled lines env :
  (forall l, In l lines -> Dotenv.load_line l env = Ret env) ->
  Dotenv.load_lines lines env = Ret env.
Proof.
  induction lines as [|line rest IH]; intros H; [reflexivity|].
  cbn [Dotenv.load_lines]. rewrite (H line (or_introl eq_refl)). cbn [obind].
  apply IH. intros l Hl. apply H. right. exact Hl.
Qed.

(** X19.  Loading is idempotent: loading the same file again changes
    nothing. *)
Theorem load_dotenv_from_idempotent :
  forall (file : option string) (env env' : Dotenv.environ),
    Dotenv.load_dotenv_from file env = Ret env' ->
    Dotenv.load_dotenv_from file env' = Ret env'.
Proof.
  intros [text|] env env' H; cbn [Dotenv.load_dotenv_from] in *;
    [|reflexivity].
  apply load_lines_settled. exact (load_lines_settles _ _ H).
Qed.

Lemma load_dotenv_from_idempotent_witness :
  Dotenv.load_dotenv_from
    (Some ("MODE=live" ++ Text.nl ++ "DEBUG=1" ++ Text.nl ++ "MODE=test")%string)
    [("MODE", "live"); ("DEBUG", "1")]
  = Ret [("MODE", "live"); ("DEBUG", "1")].
Proof.
  exact (@load_dotenv_from_idempotent
           (Some ("MODE=live" ++ Text.nl ++ "DEBUG=1" ++ Text.nl
                  ++ "MODE=test")%string)
           [] [("MODE", "live"); ("DEBUG", "1")] eq_refl).
Defined.

(** *** Without a NUL character nothing is refused *)

Lemma has_char_lstrip ch s :
  Dotenv.has_char ch s = false -> Dotenv.has_char ch (Text.lstrip s) = false.
Proof.
  induction s as [|c s IH]; [auto|]. cbn [Text.lstrip Dotenv.has_char].
  intros H. apply orb_false_iff in H. destruct H as [H1 H2].
  destruct (Text.is_space c); [auto|].
  cbn [Dotenv.has_char]. rewrite H1, H2. reflexivity.
Qed.

Lemma has_char_rstrip ch s :
  Dotenv.has_char ch s = false -> Dotenv.has_char ch (Text.rstrip s) = false.
Proof.
  induction s as [|c s IH]; [auto|]. cbn [Text.rstrip Dotenv.has_char].
  intros H. apply orb_false_iff in H. destruct H as [H1 H2].
  specialize (IH H2).
  destruct (Text.rstrip s) as [|d t].
  - destruct (Text.is_space c); [reflexivity|].
    cbn [Dotenv.has_char]. rewrite H1. reflexivity.
  - cbn [Dotenv.has_char] in *. rewrite H1. exact IH.
Qed.

Lemma has_char_strip ch s :
  Dotenv.has_char ch s = false -> Dotenv.has_char ch (Text.strip s) = false.
Proof. intros H. unfold Text.strip. now apply has_char_rstrip, has_char_lstrip. Qed.

Lemma has_char_lstrip_char q ch s :
  Dotenv.has_char ch s = false ->
  Dotenv.has_char ch (Dotenv.lstrip_char q s) = false.
Proof.
  induction s as [|c s IH]; [auto|]. cbn [Dotenv.lstrip_char Dotenv.has_char].
  intros H. apply orb_false_iff in H. destruct H as [H1 H2].
  destruct (Ascii.eqb c q); [auto|].
  cbn [Dotenv.has_char]. rewrite H1, H2. reflexivity.
Qed.

Lemma has_char_rstrip_char q ch s :
  Dotenv.has_char ch s = false ->
  Dotenv.has_char ch (Dotenv.rstrip_char q s) = false.
Proof.
  induction s as [|c s IH]; [auto|]. cbn [Dotenv.rstrip_char Dotenv.has_char].
  intros H. apply orb_false_iff in H. destruct H as [H1 H2].
  specialize (IH H2).
  destruct (Dotenv.rstrip_char q s) as [|d t].
  - destruct (Ascii.eqb c q); [reflexivity|].
    cbn [Dotenv.has_char]. rewrite H1. reflexivity.
  - cbn [Dotenv.has_char] in *. rewrite H1. exact IH.
Qed.

Lemma has_char_strip_char q ch s :
  Dotenv.has_char ch s = false ->
  Dotenv.has_char ch (Dotenv.strip_char q s) = false.
Proof.
  intros H. unfold Dotenv.strip_char.
  now apply has_char_rstrip_char, has_char_lstrip_char.
Qed.

Lemma has_char_split_first ch s :
  forall k v,
    Dotenv.split_first s = Some (k, v) ->
    Dotenv.has_char ch s = false ->
    Dotenv.has_char ch k = false /\ Dotenv.has_char ch v = false.
Proof.
  induction s as [|c s IH]; intros k v H Hs; [discriminate|].
  cbn [Dotenv.split_first Dotenv.has_char] in *.
  apply orb_false_iff in Hs. destruct Hs as [H1 H2].
  destruct (Ascii.eqb c Dotenv.EQUALS).
  - inversion H. subst. auto.
  - destruct (Dotenv.split_first s) as [[k0 v0]|]; [|discriminate].
    inversion H. subst. destruct (IH k0 v eq_refl H2) as [Hk Hv].
    cbn [Dotenv.has_char]. rewrite H1, Hk. auto.
Qed.

Lemma has_char_splitlines ch n :
  forall s,
    (String.length s <= n)%nat ->
    Dotenv.has_char ch s = false ->
    Forall (fun l => Dotenv.has_char ch l = false) (Dotenv.splitlines s).
Proof.
  induction n as [|n IH]; intros [|c s] Hn Hs; try constructor;
    cbn [String.length] in Hn; [lia|].
  cbn [Dotenv.has_char] in Hs. apply orb_false_iff in Hs. destruct Hs as [H1 H2].
  assert (Hrest : Forall (fun l => Dotenv.has_char ch l = false)
                         (Dotenv.splitlines s)) by (apply IH; [lia|exact H2]).
  cbn [Dotenv.splitlines]. destruct (Dotenv.is_line_break c).
  - constructor; [reflexivity|].
    destruct s as [|d s']; [exact Hrest|].
    destruct (Dotenv.is_cr c && Dotenv.is_lf d)%bool; [|exact Hrest].
    cbn [Dotenv.has_char] in H2. apply orb_false_iff in H2.
    cbn [String.length] in Hn. apply IH; [lia|tauto].
  - destruct (Dotenv.splitlines s) as [|l ls].
    + constructor; [|constructor]. cbn [Dotenv.has_char]. rewrite H1. reflexivity.
    + inversion Hrest; subst. constructor; [|assumption].
      cbn [Dotenv.has_char]. rewrite H1. assumption.
Qed.

Lemma load_line_returns line env :
  Dotenv.has_char Dotenv.NUL line = false ->
  exists env', Dotenv.load_line line env = Ret env'.
Proof.
  intros Hn. unfold Dotenv.load_line.
  destruct (Dotenv.parse_line line) as [[key val]|] eqn:Ep; [|eauto].
  destruct key as [|c key]; [eauto|].
  destruct (Dotenv.getenv (String c key) env); [eauto|].
  unfold Dotenv.parse_line in Ep. cbv zeta in Ep.
  pose proof (has_char_strip _ _ Hn) as Hs.
  destruct (Text.strip line) as [|c0 rest] eqn:El; [discriminate|].
  destruct (Ascii.eqb c0 Dotenv.HASH); [discriminate|].
  destruct (Dotenv.split_first (String c0 rest)) as [[k v]|] eqn:Es;
    [|discriminate].
  destruct (has_char_split_first _ _ Es Hs) as [Hk Hv].
  injection Ep as Ekey Eval. subst val.
  unfold Dotenv.putenv.
  rewrite <- Ekey, (has_char_strip _ _ Hk).
  rewrite (has_char_strip_char _ _ _
             (has_char_strip_char _ _ _ (has_char_strip _ _ Hv))).
  eexists. reflexivity.
Qed.

Lemma load_lines_return lines :
  forall env,
    Forall (fun l => Dotenv.has_char Dotenv.NUL l = false) lines ->
    exists env', Dotenv.load_lines lines env = Ret env'.
Proof.
  induction lines as [|line rest IH]; intros env HF; cbn [Dotenv.load_lines];
    [eauto|].
  inversion HF; subst.
  destruct (@load_line_returns line env) as (e1 & ->); [assumption|].
  cbn [obind]. apply IH. assumption.
Qed.

(** X20.  A file without NUL characters is always loaded: the loader
    returns, whatever the lines hold and whatever the environment is. *)
Theorem load_dotenv_from_returns :
  forall (text : string) (env : Dotenv.environ),
    Dotenv.has_char Dotenv.NUL text = false ->
    exists env', Dotenv.load_dotenv_from (Some text) env = Ret env'.
Proof.
  intros text env H. cbn [Dotenv.load_dotenv_from].
  apply load_lines_return.
  exact (@has_char_splitlines Dotenv.NUL (String.length text) text
           (le_n _) H).
Qed.

Lemma load_dotenv_from_returns_witness :
  exists env',
    Dotenv.load_dotenv_from (Some ("=x" ++ Text.nl ++ "A==" ++ Text.nl
                                   ++ "no assignment here")%string) []
    = Ret env'.
Proof.
  apply load_dotenv_from_returns. reflexivity.
Defined.

(** *** What a line assigns *)

Lemma last_char_none s : Spec.last_char s = None -> s = EmptyString.
Proof.
  destruct s as [|c s]; [reflexivity|]. simpl.
  destruct (Spec.last_char s); discriminate.
Qed.

Lemma last_char_app a b :
  b <> EmptyString -> Spec.last_char (a ++ b) = Spec.last_char b.
Proof.
  intros Hb. induction a as [|c a IH]; [reflexivity|].
  cbn [append Spec.last_char]. rewrite IH.
  destruct (Spec.last_char b) eqn:E; [reflexivity|].
  apply last_char_none in E. contradiction.
Qed.

Lemma lstrip_clean s : starts_clean s = true -> Text.lstrip s = s.
Proof.
  destruct s as [|c s]; [reflexivity|]. simpl.
  destruct (Text.is_space c); [discriminate|reflexivity].
Qed.

Lemma rstrip_clean s : ends_clean s = true -> Text.rstrip s = s.
Proof.
  unfold ends_clean. induction s as [|c s IH]; [reflexivity|].
  cbn [Spec.last_char Text.rstrip].
  destruct (Spec.last_char s) as [d|] eqn:E.
  - intros H. rewrite (IH H).
    destruct s; [discriminate|reflexivity].
  - apply last_char_none in E. subst s. simpl.
    destruct (Text.is_space c); [discriminate|reflexivity].
Qed.

Lemma strip_clean s :
  starts_clean s = true -> ends_clean s = true -> Text.strip s = s.
Proof.
  intros H1 H2. unfold Text.strip. rewrite (@lstrip_clean s H1).
  exact (@rstrip_clean s H2).
Qed.

Lemma lstrip_char_other ch c s :
  Ascii.eqb c ch = false -> Dotenv.lstrip_char ch (String c s) = String c s.
Proof. intros H. simpl. rewrite H. reflexivity. Qed.

Lemma rstrip_char_other ch s :
  forall d, Spec.last_char s = Some d -> Ascii.eqb d ch = false ->
            Dotenv.rstrip_char ch s = s.
Proof.
  induction s as [|c s IH]; intros d Hl Hd; [reflexivity|].
  cbn [Spec.last_char Dotenv.rstrip_char] in *.
  destruct (Spec.last_char s) as [e|] eqn:E.
  - rewrite (IH e eq_refl); [|inversion Hl; subst; exact Hd].
    destruct s; [discriminate|reflexivity].
  - apply last_char_none in E. subst s. inversion Hl. subst d. simpl.
    rewrite Hd. reflexivity.
Qed.

Lemma rstrip_char_snoc ch v :
  Dotenv.rstrip_char ch (v ++ String ch EmptyString) = Dotenv.rstrip_char ch v.
Proof.
  induction v as [|c v IH].
  - simpl. rewrite Ascii.eqb_refl. reflexivity.
  - cbn [append Dotenv.rstrip_char]. rewrite IH. reflexivity.
Qed.

Lemma strip_char_bare ch v : bare ch v = true -> Dotenv.strip_char ch v = v.
Proof.
  unfold bare, Dotenv.strip_char. destruct v as [|c v]; [reflexivity|].
  destruct (Spec.last_char (String c v)) as [d|] eqn:E.
  - rewrite andb_true_iff, !negb_true_iff. intros [Hc Hd].
    rewrite (@lstrip_char_other ch c v Hc).
    exact (@rstrip_char_other ch (String c v) d E Hd).
  - apply last_char_none in E. discriminate.
Qed.

Lemma strip_char_quoted ch v :
  bare ch v = true -> Dotenv.strip_char ch (quoted ch v) = v.
Proof.
  intros Hb. unfold quoted, Dotenv.strip_char.
  cbn [Dotenv.lstrip_char]. rewrite Ascii.eqb_refl.
  destruct v as [|c v].
  - simpl. rewrite Ascii.eqb_refl. reflexivity.
  - assert (Hc : Ascii.eqb c ch = false).
    { unfold bare in Hb.
      destruct (Spec.last_char (String c v)) as [d|] eqn:E.
      - apply andb_true_iff in Hb. destruct Hb as [Hb _].
        now apply negb_true_iff in Hb.
      - apply last_char_none in E. discriminate. }
    cbn [append]. rewrite (@lstrip_char_other ch c _ Hc).
    change (String c (v ++ String ch EmptyString))
      with (String c v ++ String ch EmptyString)%string.
    rewrite rstrip_char_snoc.
    fold (Dotenv.strip_char ch (String c v)).
    rewrite <- (@lstrip_char_other ch c v Hc) at 1.
    exact (@strip_char_bare ch (String c v) Hb).
Qed.

Lemma strip_char_other_quoted ch q v :
  Ascii.eqb q ch = false -> Dotenv.strip_char ch (quoted q v) = quoted q v.
Proof.
  intros Hq. apply strip_char_bare. unfold bare, quoted.
  change (String q (v ++ String q EmptyString))
    with (String q v ++ String q EmptyString)%string.
  rewrite last_char_app by discriminate. simpl. rewrite Hq. reflexivity.
Qed.

Lemma split_first_app k rest :
  Dotenv.has_char Dotenv.EQUALS k = false ->
  Dotenv.split_first (k ++ String Dotenv.EQUALS rest) = Some (k, rest).
Proof.
  induction k as [|c k IH]; intros H.
  - reflexivity.
  - cbn [Dotenv.has_char] in H. apply orb_false_iff in H. destruct H as [H1 H2].
    cbn [append Dotenv.split_first]. rewrite H1, (IH H2). reflexivity.
Qed.

Lemma starts_clean_app a b :
  starts_clean a = true -> starts_clean (a ++ b) = true.
Proof. destruct a; [discriminate|auto]. Qed.

Lemma ends_clean_app a b :
  ends_clean b = true -> ends_clean (a ++ b) = true.
Proof.
  intros H. unfold ends_clean in *. rewrite last_char_app; [exact H|].
  intros ->. discriminate.
Qed.

(** A line [k=rest] of which the two sides are free of surrounding white
    space. *)
Lemma parse_line_sides k rest :
  key_like k = true ->
  rest = EmptyString \/ (starts_clean rest = true /\ ends_clean rest = true) ->
  Dotenv.parse_line (k ++ String Dotenv.EQUALS rest)
  = Some (k, Dotenv.strip_char Dotenv.SQUOTE
               (Dotenv.strip_char Dotenv.DQUOTE rest)).
Proof.
  unfold key_like. rewrite !andb_true_iff, !negb_true_iff.
  intros [[[Hs He] Heq] Hh] Hrest.
  assert (Hline : Text.strip (k ++ String Dotenv.EQUALS rest)
                  = (k ++ String Dotenv.EQUALS rest)%string).
  { apply strip_clean; [now apply starts_clean_app|].
    destruct Hrest as [->|[_ Hr]].
    - apply ends_clean_app. reflexivity.
    - apply ends_clean_app. unfold ends_clean in *. cbn [Spec.last_char].
      destruct (Spec.last_char rest); [exact Hr|discriminate]. }
  unfold Dotenv.parse_line. cbv zeta. rewrite Hline.
  destruct k as [|c k]; [discriminate|]. cbn [append].
  assert (Hc : Ascii.eqb c Dotenv.HASH = false).
  { cbn [Text.starts_with] in Hh. rewrite andb_true_r in Hh.
    rewrite Ascii.eqb_sym. exact Hh. }
  rewrite Hc.
  change (String c (k ++ String Dotenv.EQUALS rest))
    with (String c k ++ String Dotenv.EQUALS rest)%string.
  rewrite (@split_first_app (String c k) rest Heq).
  rewrite (@strip_clean (String c k) Hs He).
  destruct Hrest as [->|[H1 H2]]; [reflexivity|].
  rewrite (@strip_clean rest H1 H2). reflexivity.
Qed.

(** X21.  What an assignment line gives.  For a key [k] (not empty, without
    white space at its ends, without [=], not starting with [#]) and a value
    [v] that neither begins nor ends with a quote character: the lines
    [k="v"] and [k='v'] assign [v] to [k], white space at the ends of [v]
    included; so does the line [k=v] when [v] is empty or has no white space
    at its ends. *)
Theorem parse_line_reads_assignment :
  forall (k v : string),
    key_like k = true ->
    bare Dotenv.DQUOTE v = true ->
    bare Dotenv.SQUOTE v = true ->
    Dotenv.parse_line (k ++ "=" ++ quoted Dotenv.DQUOTE v) = Some (k, v)
    /\ Dotenv.parse_line (k ++ "=" ++ quoted Dotenv.SQUOTE v) = Some (k, v)
    /\ (v = EmptyString \/ (starts_clean v = true /\ ends_clean v = true) ->
        Dotenv.parse_line (k ++ "=" ++ v) = Some (k, v)).
Proof.
  intros k v Hk Hd Hs.
  assert (Hq : forall q, Text.is_space q = false ->
                         starts_clean (quoted q v) = true
                         /\ ends_clean (quoted q v) = true).
  { intros q Hq. split.
    - simpl. rewrite Hq. reflexivity.
    - unfold quoted.
      change (String q (v ++ String q EmptyString))
        with (String q v ++ String q EmptyString)%string.
      apply ends_clean_app. unfold ends_clean. simpl. rewrite Hq. reflexivity. }
  change (k ++ "=" ++ quoted Dotenv.DQUOTE v)%string
    with (k ++ String Dotenv.EQUALS (quoted Dotenv.DQUOTE v))%string.
  change (k ++ "=" ++ quoted Dotenv.SQUOTE v)%string
    with (k ++ String Dotenv.EQUALS (quoted Dotenv.SQUOTE v))%string.
  change (k ++ "=" ++ v)%string with (k ++ String Dotenv.EQUALS v)%string.
  split; [|split].
  - rewrite (@parse_line_sides k _ Hk (or_intror (Hq Dotenv.DQUOTE eq_refl))).
    rewrite (@strip_char_quoted _ v Hd), (@strip_char_bare _ v Hs).
    reflexivity.
  - rewrite (@parse_line_sides k _ Hk (or_intror (Hq Dotenv.SQUOTE eq_refl))).
    rewrite (@strip_char_other_quoted Dotenv.DQUOTE Dotenv.SQUOTE v eq_refl).
    rewrite (@strip_char_quoted _ v Hs). reflexivity.
  - intros Hv. rewrite (@parse_line_sides k v Hk Hv).
    rewrite (@strip_char_bare _ v Hd), (@strip_char_bare _ v Hs).
    reflexivity.
Qed.

Lemma parse_line_reads_assignment_witness :
  Dotenv.parse_line
    ("REDDIT_USER_AGENT" ++ "=" ++ quoted Dotenv.DQUOTE " eas bot/1.0 ")
  = Some ("REDDIT_USER_AGENT", " eas bot/1.0 ")
  /\ Dotenv.parse_line
       ("REDDIT_USER_AGENT" ++ "=" ++ quoted Dotenv.SQUOTE " eas bot/1.0 ")
     = Some ("REDDIT_USER_AGENT", " eas bot/1.0 ")
  /\ (" eas bot/1.0 " = EmptyString
      \/ (starts_clean " eas bot/1.0 " = true
          /\ ends_clean " eas bot/1.0 " = true) ->
      Dotenv.parse_line ("REDDIT_USER_AGENT" ++ "=" ++ " eas bot/1.0 ")
      = Some ("REDDIT_USER_AGENT", " eas bot/1.0 ")).
Proof.
  apply parse_line_reads_assignment; reflexivity.
Defined.

(** ** The OAuth helper *)

Lemma headers_cached I B now r a :
  Auth.has_creds a = true ->
  cached now a = true ->
  Auth.headers I B now r a
  = ([("User-Agent", Auth.user_agent a);
      ("Authorization", ("Bearer " ++ fmt B (Auth.token a))%string)], a, false).
Proof.
  intros Hc Hk. unfold Auth.headers, Auth.ensure_token. cbv zeta.
  rewrite Hc. unfold cached in Hk. rewrite Hk.
  apply andb_true_iff in Hk. destruct Hk as [Ht _]. rewrite Ht. reflexivity.
Qed.

Lemma headers_failed I B now r a :
  Auth.has_creds a = true ->
  cached now a = false ->
  (r = Auth.PostFail
   \/ exists body e, r = Auth.PostOk body
                     /\ Auth.exchange I now body = Raise e) ->
  Auth.headers I B now r a
  = ([("User-Agent", Auth.user_agent a)], Auth.cleared a, true).
Proof.
  intros Hc Hk Hr. unfold Auth.headers, Auth.ensure_token. cbv zeta.
  rewrite Hc. unfold cached in Hk. rewrite Hk.
  destruct Hr as [->|(body & e & -> & ->)]; reflexivity.
Qed.

(** X22.  A token obtained at time [now] with a lifetime of [n] seconds is
    sent as [Bearer <token>] and is reused, without a new token request and
    with the same headers, by every call before [now + n - 30]. *)
Theorem token_reused_until_expiry :
  forall (int_of_str : string -> option Z) (B : Builtins) (now later : Q)
         (j : dict) (n : Z) (a : Auth.RedditAuth) (r : Auth.reply),
    Auth.has_creds a = true ->
    cached now a = false ->
    truthy (get j "access_token" JNull) = true ->
    Auth.py_int int_of_str (get j "expires_in" (JNum 3600)) = Ret n ->
    (later < now + inject_Z n - 30)%Q ->
    exists h a1,
      Auth.headers int_of_str B now (Auth.PostOk (JObj j)) a = (h, a1, true)
      /\ Auth.header "Authorization" h
         = Some ("Bearer " ++ fmt B (get j "access_token" JNull))%string
      /\ Auth.headers int_of_str B later r a1 = (h, a1, false).
Proof.
  intros I B now later j n a r Hc Hk Ht Hn Hl.
  exists [("User-Agent", Auth.user_agent a);
          ("Authorization",
           ("Bearer " ++ fmt B (get j "access_token" JNull))%string)].
  exists (Auth.with_token a (get j "access_token" JNull) (now + inject_Z n)).
  split; [|split].
  - unfold Auth.headers, Auth.ensure_token. cbv zeta. rewrite Hc.
    unfold cached in Hk. rewrite Hk.
    unfold Auth.exchange. cbn [as_dict obind]. rewrite Hn. cbn [obind].
    rewrite Ht. reflexivity.
  - reflexivity.
  - apply (@headers_cached I B later r
             (Auth.with_token a (get j "access_token" JNull)
                              (now + inject_Z n))).
    + exact Hc.
    + unfold cached. cbn [Auth.with_token Auth.token Auth.exp].
      rewrite Ht. apply Qltb_lt in Hl. rewrite Hl. reflexivity.
Qed.

Lemma token_reused_until_expiry_witness :
  exists h a1,
    Auth.headers (fun _ => None) sample_runtime 1700000000
                 (Auth.PostOk sample_grant) sample_auth = (h, a1, true)
    /\ Auth.header "Authorization" h
       = Some ("Bearer "
               ++ fmt sample_runtime
                      (get [("access_token", JStr "tok-1");
                            ("token_type", JStr "bearer");
                            ("expires_in", JNum 86400)]
                           "access_token" JNull))%string
    /\ Auth.headers (fun _ => None) sample_runtime 1700086000 Auth.PostFail a1
       = (h, a1, false).
Proof.
  apply (@token_reused_until_expiry (fun _ => None) sample_runtime 1700000000
           1700086000
           [("access_token", JStr "tok-1"); ("token_type", JStr "bearer");
            ("expires_in", JNum 86400)]
           86400 sample_auth Auth.PostFail); reflexivity.
Defined.

(** X23.  When the token request fails (an exception of the request, a body
    that is not an object, an [expires_in] that is not an integer), the
    headers carry the User-Agent only, the token and its expiry are erased,
    and the next call asks for a token again, at whatever time it is
    made. *)
Theorem failed_token_request_falls_back :
  forall (int_of_str : string -> option Z) (B : Builtins) (now later : Q)
         (a : Auth.RedditAuth) (r r' : Auth.reply),
    Auth.has_creds a = true ->
    cached now a = false ->
    (r = Auth.PostFail
     \/ exists body e, r = Auth.PostOk body
                       /\ Auth.exchange int_of_str now body = Raise e) ->
    Auth.headers int_of_str B now r a
    = ([("User-Agent", Auth.user_agent a)], Auth.cleared a, true)
    /\ exists h a2,
         Auth.headers int_of_str B later r' (Auth.cleared a) = (h, a2, true).
Proof.
  intros I B now later a r r' Hc Hk Hr.
  split; [exact (@headers_failed I B now r a Hc Hk Hr)|].
  unfold Auth.headers, Auth.ensure_token. cbv zeta.
  change (Auth.has_creds (Auth.cleared a)) with (Auth.has_creds a).
  rewrite Hc. cbn [Auth.cleared Auth.token truthy andb].
  destruct r' as [|body].
  - do 2 eexists. reflexivity.
  - destruct (Auth.exchange I later body) as [[tok until]| |].
    + destruct (truthy tok); do 2 eexists; reflexivity.
    + do 2 eexists. reflexivity.
    + do 2 eexists. reflexivity.
Qed.

Lemma failed_token_request_falls_back_witness :
  Auth.headers (fun _ => None) sample_runtime 1700000000
               (Auth.PostOk (JObj [("access_token", JStr "tok-1");
                                   ("expires_in", JStr "soon")]))
               sample_auth
  = ([("User-Agent", Auth.user_agent sample_auth)], Auth.cleared sample_auth,
     true)
  /\ exists h a2,
       Auth.headers (fun _ => None) sample_runtime 1700000001
                    (Auth.PostOk sample_grant) (Auth.cleared sample_auth)
       = (h, a2, true).
Proof.
  apply failed_token_request_falls_back.
  - reflexivity.
  - reflexivity.
  - right. eexists. exists ValueError. split; reflexivity.
Defined.

(** X24.  What every call of [headers] keeps: the User-Agent header is
    always sent; the credentials and the user agent are not changed; a token
    request is made exactly when there are credentials and no usable stored
    token; without a request the object is unchanged; without credentials
    the User-Agent is the only header; and an Authorization header is sent
    only with credentials, and is [Bearer] followed by the token that is then
    stored, a truthy one. *)
Theorem headers_invariants :
  forall (int_of_str : string -> option Z) (B : Builtins) (now : Q)
         (r : Auth.reply) (a : Auth.RedditAuth)
         (h : list (string * string)) (a' : Auth.RedditAuth) (asked : bool),
    Auth.headers int_of_str B now r a = (h, a', asked) ->
    Auth.header "User-Agent" h = Some (Auth.user_agent a)
    /\ (Auth.client_id a' = Auth.client_id a
        /\ Auth.client_secret a' = Auth.client_secret a
        /\ Auth.user_agent a' = Auth.user_agent a)
    /\ asked = (Auth.has_creds a && negb (cached now a))%bool
    /\ (asked = false -> a' = a)
    /\ (Auth.has_creds a = false -> h = [("User-Agent", Auth.user_agent a)])
    /\ (forall v, Auth.header "Authorization" h = Some v ->
                  Auth.has_creds a = true
                  /\ truthy (Auth.token a') = true
                  /\ v = ("Bearer " ++ fmt B (Auth.token a'))%string).
Proof.
  intros I B now r a h a' asked H.
  unfold Auth.headers, Auth.ensure_token in H. cbv zeta in H.
  fold (cached now a) in H.
  destruct (Auth.has_creds a) eqn:Hc.
  - assert (Hno : forall t,
               Auth.header "Authorization" [("User-Agent", t)] = None)
      by reflexivity.
    destruct (cached now a) eqn:Hk.
    + unfold cached in Hk. apply andb_true_iff in Hk. destruct Hk as [Ht _].
      rewrite Ht in H. inversion H; subst.
      repeat split; auto; try discriminate.
      cbn in H0. inversion H0. reflexivity.
    + assert (Hclr : forall x y z,
                 (([("User-Agent", Auth.user_agent a)], Auth.cleared a, true)
                  : list (string * string) * Auth.RedditAuth * bool)
                 = (x, y, z) ->
                 x = [("User-Agent", Auth.user_agent a)]
                 /\ y = Auth.cleared a /\ z = true).
      { intros x y z E. inversion E. auto. }
      destruct r as [|body].
      * cbn [truthy] in H. apply Hclr in H. destruct H as (-> & -> & ->).
        repeat split; auto; try discriminate.
      * destruct (Auth.exchange I now body) as [[tok until]| |].
        -- destruct (truthy tok) eqn:Ht; inversion H; subst;
             repeat split; auto; try discriminate.
           cbn in H0. inversion H0. reflexivity.
        -- cbn [truthy] in H. apply Hclr in H. destruct H as (-> & -> & ->).
           repeat split; auto; try discriminate.
        -- cbn [truthy] in H. apply Hclr in H. destruct H as (-> & -> & ->).
           repeat split; auto; try discriminate.
  - inversion H; subst. repeat split; auto; discriminate.
Qed.

Lemma headers_invariants_witness :
  Auth.header "User-Agent"
              [("User-Agent", "eas-extractor/1.0");
               ("Authorization", "Bearer tok-1")]
  = Some (Auth.user_agent sample_auth)
  /\ (Auth.client_id (Auth.with_token sample_auth (JStr "tok-1") 1700086400)
      = Auth.client_id sample_auth
      /\ Auth.client_secret
           (Auth.with_token sample_auth (JStr "tok-1") 1700086400)
         = Auth.client_secret sample_auth
      /\ Auth.user_agent
           (Auth.with_token sample_auth (JStr "tok-1") 1700086400)
         = Auth.user_agent sample_auth)
  /\ true = (Auth.has_creds sample_auth
             && negb (cached 1700000000 sample_auth))%bool
  /\ (true = false ->
      Auth.with_token sample_auth (JStr "tok-1") 1700086400 = sample_auth)
  /\ (Auth.has_creds sample_auth = false ->
      [("User-Agent", "eas-extractor/1.0"); ("Authorization", "Bearer tok-1")]
      = [("User-Agent", Auth.user_agent sample_auth)])
  /\ (forall v,
         Auth.header "Authorization"
                     [("User-Agent", "eas-extractor/1.0");
                      ("Authorization", "Bearer tok-1")] = Some v ->
         Auth.has_creds sample_auth = true
         /\ truthy (Auth.token
                      (Auth.with_token sample_auth (JStr "tok-1") 1700086400))
            = true
         /\ v = ("Bearer "
                 ++ fmt sample_runtime
                        (Auth.token
                           (Auth.with_token sample_auth (JStr "tok-1")
                                            1700086400)))%string).
Proof.
  exact (@headers_invariants (fun _ => None) sample_runtime 1700000000
           (Auth.PostOk sample_grant) sample_auth
           [("User-Agent", "eas-extractor/1.0");
            ("Authorization", "Bearer tok-1")]
           (Auth.with_token sample_auth (JStr "tok-1") 1700086400) true
           ltac:(vm_compute; reflexivity)).
Defined.

(** ** Letter case *)

Lemma same_letters_cons c c' s s' :
  same_letters (String c s) (String c' s') ->
  Text.lower_ascii c = Text.lower_ascii c' /\ same_letters s s'.
Proof. unfold same_letters. simpl. intros H. inversion H. auto. Qed.

Lemma same_letter_word c c' :
  Text.lower_ascii c = Text.lower_ascii c' -> Text.is_word c = Text.is_word c'.
Proof.
  intros H. rewrite <- (is_word_lower c), <- (is_word_lower c'), H.
  reflexivity.
Qed.

Lemma same_letter_space c c' :
  Text.lower_ascii c = Text.lower_ascii c' ->
  Text.is_space c = Text.is_space c'.
Proof.
  intros H. rewrite <- (is_space_lower c), <- (is_space_lower c'), H.
  reflexivity.
Qed.

Lemma at_boundary_case p p' s s' :
  same_letter p p' -> same_letters s s' ->
  Re.at_boundary p s = Re.at_boundary p' s'.
Proof.
  intros Hp Hs. unfold Re.at_boundary. f_equal.
  - destruct p as [c|], p' as [c'|]; try discriminate; [|reflexivity].
    unfold same_letter in Hp. simpl in Hp. inversion Hp.
    now apply same_letter_word.
  - destruct s as [|c s], s' as [|c' s']; try discriminate; [reflexivity|].
    apply same_letters_cons in Hs. destruct Hs as [Hc _].
    now apply same_letter_word.
Qed.

Lemma spaces1_case k k' :
  case_blind k k' ->
  forall s s', same_letters s s' -> Re.spaces1 k s = Re.spaces1 k' s'.
Proof.
  intros Hk. induction s as [|c s IH]; intros [|c' s'] Hs; try discriminate;
    [reflexivity|].
  apply same_letters_cons in Hs. destruct Hs as [Hc Hs].
  cbn [Re.spaces1]. rewrite (same_letter_space _ _ Hc).
  destruct (Text.is_space c'); [|reflexivity].
  f_equal; [|exact (IH s' Hs)].
  apply Hk; [|exact Hs]. unfold same_letter. simpl. now rewrite Hc.
Qed.

Lemma rmatch_case r :
  forall k k', case_blind k k' ->
               case_blind (Re.rmatch true r k) (Re.rmatch true r k').
Proof.
  induction r as [|c| | |r1 IH1 r2 IH2|r1 IH1 r2 IH2]; intros k k' Hk p p' s s' Hp Hs;
    cbn [Re.rmatch].
  - now apply Hk.
  - destruct s as [|d s], s' as [|d' s']; try discriminate; [reflexivity|].
    apply same_letters_cons in Hs. destruct Hs as [Hd Hs].
    unfold Re.chr_eq. rewrite Hd.
    destruct (Ascii.eqb (Text.lower_ascii c) (Text.lower_ascii d'));
      [|reflexivity].
    apply Hk; [|exact Hs]. unfold same_letter. simpl. now rewrite Hd.
  - now apply spaces1_case.
  - rewrite (at_boundary_case Hp Hs).
    destruct (Re.at_boundary p' s'); [|reflexivity]. now apply Hk.
  - apply IH1; [|exact Hp|exact Hs]. now apply IH2.
  - f_equal; [now apply IH1 | now apply IH2].
Qed.

Lemma search_from_case r :
  forall s s' p p',
    same_letter p p' -> same_letters s s' ->
    Re.search_from true r p s = Re.search_from true r p' s'.
Proof.
  induction s as [|c s IH]; intros [|c' s'] p p' Hp Hs; try discriminate.
  - cbn [Re.search_from]. f_equal.
    apply (@rmatch_case r (fun _ _ => true) (fun _ _ => true)); auto.
    intros ? ? ? ? _ _. reflexivity.
  - pose proof (same_letters_cons Hs) as [Hc Hs'].
    cbn [Re.search_from]. f_equal.
    + apply (@rmatch_case r (fun _ _ => true) (fun _ _ => true)); auto.
      intros ? ? ? ? _ _. reflexivity.
    + apply IH; [|exact Hs']. unfold same_letter. simpl. now rewrite Hc.
Qed.

Lemma search_case r s s' :
  same_letters s s' -> Re.search true r s = Re.search true r s'.
Proof. intros H. unfold Re.search. now apply search_from_case. Qed.

#[local] Opaque KEYWORDS round2.

(** X25.  The score does not depend on letter case: two titles and two
    bodies that differ in letter case only get the same score, the
    place-name bonus and the high-priority bonus included. *)
Theorem score_post_ignores_case :
  forall (title title' body body' : string) (score num_comments : Q),
    same_letters title title' ->
    same_letters body body' ->
    score_post title body score num_comments
    = score_post title' body' score num_comments.
Proof.
  intros title title' body body' score n Ht Hb.
  assert (H : same_letters (title ++ Text.nl ++ body)
                           (title' ++ Text.nl ++ body')).
  { unfold same_letters in *. rewrite !lower_app, Ht, Hb. reflexivity. }
  unfold score_post. cbv zeta.
  rewrite (search_case ALEXANDRIA_PATTERN H).
  unfold high_priority, contains_keywords. cbv zeta.
  unfold same_letters in H. rewrite H. reflexivity.
Qed.

#[local] Transparent KEYWORDS round2.

Lemma score_post_ignores_case_witness :
  score_post "SHOTS FIRED in Alexandria" "Police Blocked King St" 12 4
  = score_post "shots fired in ALEXANDRIA" "police blocked king st" 12 4.
Proof.
  apply score_post_ignores_case; reflexivity.
Defined.
